(** * CRM client adapter of labs-lucats-proxy: a shallow embedding

    The development follows the [CRMClient] class (the OData/HTTP client of
    the proxy): strings are sequences of UTF-16 code units, JSON values are
    an inductive type, objects are association lists in property order, and
    the asynchronous methods are state-passing functions over the sequence
    of answers the network gives and the console log. *)

From Stdlib Require Import List ZArith NArith Lia Bool String Ascii Floats DecimalString.
Set Warnings "-register-all".
Import ListNotations.
Open Scope Z_scope.

(** ** Strings *)

Module JsString.

(** A JavaScript string is a sequence of UTF-16 code units. *)
Definition code_unit := N.
Bind Scope N_scope with code_unit.
Definition jsstring := list code_unit.

(** String literals of the source (all ASCII), written as Rocq strings. *)
Definition js (s : string) : jsstring :=
  map N_of_ascii (list_ascii_of_string s).

(** The same, with every apostrophe standing for a double quote (for JSON
    texts). *)
Definition jq (s : string) : jsstring :=
  map (fun c => if N.eqb c 39 then 34%N else c) (js s).

Fixpoint eqb (a b : jsstring) : bool :=
  match a, b with
  | [], [] => true
  | x :: a', y :: b' => N.eqb x y && eqb a' b'
  | _, _ => false
  end.

(** [prefixb p s]: [p] occurs in [s] at position 0. *)
Fixpoint prefixb (p s : jsstring) : bool :=
  match p, s with
  | [], _ => true
  | x :: p', y :: s' => N.eqb x y && prefixb p' s'
  | _ :: _, [] => false
  end.

(** [String.prototype.indexOf]: the first position at which [search]
    occurs, or -1. *)
Fixpoint indexOf_from (s search : jsstring) (i : Z) : Z :=
  if prefixb search s then i
  else match s with
       | [] => -1
       | _ :: s' => indexOf_from s' search (i + 1)
       end.

Definition indexOf (s search : jsstring) : Z := indexOf_from s search 0.

(** [String.prototype.includes]: the search does not answer -1. *)
Definition includes (s search : jsstring) : bool :=
  negb (indexOf s search =? -1).

(** [String.prototype.substring start end]: both ends are clamped to
    [0, length] and swapped when out of order. *)
Definition substring (s : jsstring) (start finish : Z) : jsstring :=
  let len := Z.of_nat (List.length s) in
  let a := Z.min (Z.max start 0) len in
  let b := Z.min (Z.max finish 0) len in
  let lo := Z.min a b in
  let hi := Z.max a b in
  firstn (Z.to_nat (hi - lo)) (skipn (Z.to_nat lo) s).

End JsString.
Export JsString.

(** ** Values, exceptions and objects *)

Module JsValue.

(** JSON-shaped JavaScript values.  An object is the list of its own
    enumerable string-keyed properties, in the order [Object.keys]
    enumerates them.  The prototype of an object is not part of the value:
    the client only reads properties that [Object.prototype] does not
    define, and every statement below speaks of own properties. *)
Inductive jsval : Type :=
| VUndefined
| VNull
| VBool (b : bool)
| VNum (f : float)
| VStr (s : jsstring)
| VDate (time : float)
| VArr (elems : list jsval)
| VObj (props : list (jsstring * jsval)).

(** What a [throw] carries. *)
Inductive exn : Type :=
| TypeError
| SyntaxError
| Error (arg : jsval)          (* [new Error(arg)] *)
| Rejection.                   (* a rejected token or network promise *)

Inductive outcome (A : Type) : Type :=
| Ret (a : A)
| Throw (e : exn).
Arguments Ret {A} a.
Arguments Throw {A} e.

Definition bind {A B} (m : outcome A) (k : A -> outcome B) : outcome B :=
  match m with
  | Ret a => k a
  | Throw e => Throw e
  end.

Notation "x <- m ;; k" := (bind m (fun x => k))
  (at level 61, m at next level, right associativity).

(** ToBoolean. *)
Definition truthy (v : jsval) : bool :=
  match v with
  | VUndefined | VNull => false
  | VBool b => b
  | VNum f => negb (PrimFloat.eqb f 0%float || PrimFloat.is_nan f)
  | VStr s => match s with [] => false | _ :: _ => true end
  | VDate _ | VArr _ | VObj _ => true
  end.

(** The canonical decimal name of an array index. *)
Definition index_name (i : nat) : jsstring :=
  js (NilEmpty.string_of_uint (Nat.to_uint i)).

Fixpoint indexed {A} (i : nat) (l : list A) : list (jsstring * A) :=
  match l with
  | [] => []
  | x :: l' => (index_name i, x) :: indexed (S i) l'
  end.

(** Own enumerable string-keyed properties of a value that is not null or
    undefined: the properties of an object, the elements of an array, the
    code units of a string. *)
Definition own_props (v : jsval) : list (jsstring * jsval) :=
  match v with
  | VObj props => props
  | VArr elems => indexed 0 elems
  | VStr s => indexed 0 (map (fun c => VStr [c]) s)
  | _ => []
  end.

Fixpoint lookup (k : jsstring) (props : list (jsstring * jsval))
  : option jsval :=
  match props with
  | [] => None
  | (k', v) :: rest => if eqb k k' then Some v else lookup k rest
  end.

(** Property read [v[k]] / [v.k]. *)
Definition get_prop (v : jsval) (k : jsstring) : outcome jsval :=
  match v with
  | VUndefined | VNull => Throw TypeError
  | _ => Ret (match lookup k (own_props v) with
              | Some x => x
              | None => VUndefined
              end)
  end.

(** [Object.keys]. *)
Definition Object_keys (v : jsval) : outcome (list jsstring) :=
  match v with
  | VUndefined | VNull => Throw TypeError
  | _ => Ret (map fst (own_props v))
  end.

(** Array-index property names ("0", "7", "12", below 2^32 - 1) are
    enumerated first, in ascending numeric order; every other name follows
    in creation order. *)
Definition is_digit (c : code_unit) : bool := (48 <=? c)%N && (c <=? 57)%N.

Fixpoint decimal_value (acc : N) (s : jsstring) : N :=
  match s with
  | [] => acc
  | c :: s' => decimal_value (10 * acc + (c - 48))%N s'
  end.

Definition array_index (k : jsstring) : option N :=
  match k with
  | [] => None
  | c :: rest =>
      if forallb is_digit k && (negb (N.eqb c 48) || match rest with [] => true | _ => false end)
      then let n := decimal_value 0 k in
           if (n <? 4294967295)%N then Some n else None
      else None
  end.

Fixpoint replace_prop (k : jsstring) (v : jsval)
  (props : list (jsstring * jsval)) : list (jsstring * jsval) :=
  match props with
  | [] => []
  | (k', v') :: rest =>
      if eqb k k' then (k', v) :: rest else (k', v') :: replace_prop k v rest
  end.

Fixpoint insert_index (n : N) (k : jsstring) (v : jsval)
  (props : list (jsstring * jsval)) : list (jsstring * jsval) :=
  match props with
  | [] => [(k, v)]
  | (k', v') :: rest =>
      match array_index k' with
      | Some m => if (m <? n)%N then (k', v') :: insert_index n k v rest
                  else (k, v) :: props
      | None => (k, v) :: props
      end
  end.

(** Definition of the own property [k] on the property list of a plain
    object: an existing property keeps its place and takes the new value, a
    new one is created.  This is what [JSON.parse] does for every member,
    and what an assignment [obj[k] = v] does for every name but
    [__proto__]. *)
Definition set_own (k : jsstring) (v : jsval)
  (props : list (jsstring * jsval)) : list (jsstring * jsval) :=
  match lookup k props with
  | Some _ => replace_prop k v props
  | None =>
      match array_index k with
      | Some n => insert_index n k v props
      | None => props ++ [(k, v)]
      end
  end.

(** Assignment [obj[k] = v] on a plain object.  The name [__proto__] is
    taken by the setter of [Object.prototype]: the assignment creates no own
    property (it replaces the prototype when [v] is an object or [null], and
    does nothing otherwise). *)
Definition assign_own (k : jsstring) (v : jsval)
  (props : list (jsstring * jsval)) : list (jsstring * jsval) :=
  if eqb k (js "__proto__") then props else set_own k v props.

(** Strict equality with a string constant. *)
Definition is_string (v : jsval) (s : jsstring) : bool :=
  match v with
  | VStr t => eqb t s
  | _ => false
  end.

(** The conversion of a value to a string (in a template literal) does not
    throw.  It throws a [TypeError] for an object with an own property
    [toString] (no member of a JSON value is a function, and the inherited
    [valueOf] answers the object itself), and for an array that holds such
    an object, since the conversion joins the converted elements. *)
Fixpoint printable (v : jsval) : bool :=
  match v with
  | VObj props =>
      match lookup (js "toString") props with
      | Some _ => false
      | None => true
      end
  | VArr elems => forallb printable elems
  | _ => true
  end.

End JsValue.
Export JsValue.

(** ** Property-name normalisation *)

Module Normalize.

Definition FORMATTED_VALUE : jsstring :=
  js "@OData.Community.Display.V1.FormattedValue".
Definition LOGICAL_NAME : jsstring :=
  js "@Microsoft.Dynamics.CRM.lookuplogicalname".
Definition NAVIGATION_PROPERTY : jsstring :=
  js "@Microsoft.Dynamics.CRM.associatednavigationproperty".

(** Truth value of the local [index] (undefined, or a number) and of the
    local [suffix] (undefined, or a string). *)
Definition index_truthy (index : option Z) : bool :=
  match index with Some i => negb (i =? 0) | None => false end.

Definition suffix_truthy (suffix : option jsstring) : bool :=
  match suffix with Some (_ :: _) => true | _ => false end.

(** [CRMClient.getNormalizedPropertyName]: three successive tests, each
    overwriting [index] and [suffix]; the name is cut only when both are
    truthy. *)
Definition getNormalizedPropertyName (propertyName : jsstring) : jsstring :=
  let st0 : option Z * option jsstring := (None, None) in
  let st1 :=
    if includes propertyName FORMATTED_VALUE
    then (Some (indexOf propertyName FORMATTED_VALUE), Some (js "_formatted"))
    else st0 in
  let st2 :=
    if includes propertyName LOGICAL_NAME
    then (Some (indexOf propertyName LOGICAL_NAME), Some (js "_logical"))
    else st1 in
  let st3 :=
    if includes propertyName NAVIGATION_PROPERTY
    then (Some (indexOf propertyName NAVIGATION_PROPERTY),
          Some (js "_navigationproperty"))
    else st2 in
  match st3 with
  | (Some index, Some suffix) =>
      if index_truthy (Some index) && suffix_truthy (Some suffix)
      then substring propertyName 0 index ++ suffix
      else propertyName
  | _ => propertyName
  end.

(** The value read by [data[propertyName]] on a value that is not null or
    undefined. *)
Definition read_own (data : jsval) (k : jsstring) : jsval :=
  match lookup k (own_props data) with
  | Some x => x
  | None => VUndefined
  end.

(** [CRMClient.parsePrefixedEntity]: a fresh object receives, for every key
    of [data] in enumeration order, the value of that key under the
    normalised name. *)
Definition parsePrefixedEntity (data : jsval) : outcome jsval :=
  keys <- Object_keys data ;;
  Ret (VObj (fold_left
               (fun normalizedObject propertyName =>
                  assign_own (getNormalizedPropertyName propertyName)
                             (read_own data propertyName) normalizedObject)
               keys [])).

(** Method call [v.includes(search)]: defined on strings and arrays; on any
    other value the property is absent or not a function. *)
Definition call_includes (v : jsval) (search : jsstring) : outcome bool :=
  match v with
  | VStr s => Ret (includes s search)
  | VArr elems => Ret (existsb (fun e => is_string e search) elems)
  | _ => Throw TypeError
  end.

Fixpoint map_outcome {A B} (f : A -> outcome B) (l : list A)
  : outcome (list B) :=
  match l with
  | [] => Ret []
  | x :: l' => y <- f x ;; ys <- map_outcome f l' ;; Ret (y :: ys)
  end.

(** Method call [v.map(f)]: defined on arrays only. *)
Definition call_map (v : jsval) (f : jsval -> outcome jsval) : outcome jsval :=
  match v with
  | VArr elems => ys <- map_outcome f elems ;; Ret (VArr ys)
  | _ => Throw TypeError
  end.

(** Assignment [json.k = v]; it is only reached on an object. *)
Definition assign (json : jsval) (k : jsstring) (v : jsval) : jsval :=
  match json with
  | VObj props => VObj (assign_own k v props)
  | _ => json
  end.

(** [CRMClient.processGetResponse]. *)
Definition processGetResponse (json : jsval) : outcome jsval :=
  context <- get_prop json (js "@odata.context") ;;
  isEntity <- call_includes context (js "/$entity") ;;
  if isEntity : bool then parsePrefixedEntity json
  else
    value <- get_prop json (js "value") ;;
    if truthy value
    then mapped <- call_map value parsePrefixedEntity ;;
         Ret (assign json (js "value") mapped)
    else Ret json.

End Normalize.
Export Normalize.


(** ** Regular expressions *)

Module RegExp.

(** The fragment of the regular-expression language the client uses:
    sequences of single characters and of greedy repetitions of a single
    character, with one capturing group. *)
Inductive citem : Type :=
| CChar (c : code_unit)            (* a character *)
| CRange (lo hi : code_unit)       (* [lo-hi] *)
| CDigit                           (* \d *)
| CWord                            (* \w *)
| CSpace.                          (* \s *)

Inductive cclass : Type :=
| Class (items : list citem)       (* a character, an escape or [...] *)
| Dot.                             (* . (no flag) *)

Inductive node : Type :=
| Single (cl : cclass)             (* one character *)
| Many1 (cl : cclass)              (* cl+ *)
| Many0 (cl : cclass)              (* cl* *)
| GroupOpen                        (* "(" of group 1 *)
| GroupClose.                      (* ")" of group 1 *)

Definition is_line_terminator (c : code_unit) : bool :=
  N.eqb c 10 || N.eqb c 13 || N.eqb c 8232 || N.eqb c 8233.

(** WhiteSpace and LineTerminator code units, the meaning of [\s]. *)
Definition is_space (c : code_unit) : bool :=
  is_line_terminator c
  || N.eqb c 9 || N.eqb c 11 || N.eqb c 12 || N.eqb c 32 || N.eqb c 160
  || N.eqb c 5760 || ((8192 <=? c)%N && (c <=? 8202)%N)
  || N.eqb c 8239 || N.eqb c 8287 || N.eqb c 12288 || N.eqb c 65279.

Definition is_word (c : code_unit) : bool :=
  ((97 <=? c)%N && (c <=? 122)%N) || ((65 <=? c)%N && (c <=? 90)%N)
  || is_digit c || N.eqb c 95.

Definition item_mem (it : citem) (c : code_unit) : bool :=
  match it with
  | CChar x => N.eqb c x
  | CRange lo hi => (lo <=? c)%N && (c <=? hi)%N
  | CDigit => is_digit c
  | CWord => is_word c
  | CSpace => is_space c
  end.

Definition mem (cl : cclass) (c : code_unit) : bool :=
  match cl with
  | Class items => existsb (fun it => item_mem it c) items
  | Dot => negb (is_line_terminator c)
  end.

(** Length of the longest prefix of [s] made of characters of [cl]. *)
Fixpoint span (cl : cclass) (s : jsstring) : nat :=
  match s with
  | x :: s' => if mem cl x then S (span cl s') else 0%nat
  | [] => 0%nat
  end.

(** A greedy repetition first takes [n] characters and gives them back one
    at a time, down to [lo], until the rest of the pattern matches. *)
Fixpoint backoff {R} (k : jsstring -> option R) (s : jsstring) (lo n : nat)
  : option R :=
  if (n <? lo)%nat then None
  else match k (skipn n s) with
       | Some r => Some r
       | None => match n with
                 | O => None
                 | S n' => backoff k s lo n'
                 end
       end.

(** The input that remained at each parenthesis of group 1. *)
Record captures : Type :=
  { group_start : option jsstring; group_end : option jsstring }.

Definition no_captures : captures :=
  {| group_start := None; group_end := None |}.

(** Backtracking match of the pattern [p] at the head of [s]. *)
Fixpoint run (p : list node) (s : jsstring) (c : captures)
  : option (captures * jsstring) :=
  match p with
  | [] => Some (c, s)
  | Single cl :: p' =>
      match s with
      | x :: s' => if mem cl x then run p' s' c else None
      | [] => None
      end
  | Many1 cl :: p' => backoff (fun s' => run p' s' c) s 1 (span cl s)
  | Many0 cl :: p' => backoff (fun s' => run p' s' c) s 0 (span cl s)
  | GroupOpen :: p' =>
      run p' s {| group_start := Some s; group_end := group_end c |}
  | GroupClose :: p' =>
      run p' s {| group_start := group_start c; group_end := Some s |}
  end.

(** [RegExp.prototype.exec] without flags: the first position of the input
    at which the pattern matches. *)
Fixpoint exec (p : list node) (s : jsstring) : option (captures * jsstring) :=
  match run p s no_captures with
  | Some r => Some r
  | None => match s with
            | [] => None
            | _ :: s' => exec p s'
            end
  end.

(** The text of group 1 ([match[1]]); [None] is [undefined]. *)
Definition group1 (c : captures) : option jsstring :=
  match group_start c, group_end c with
  | Some a, Some b => Some (firstn (List.length a - List.length b) a)
  | _, _ => None
  end.

(** A literal piece of a pattern. *)
Definition lit (s : string) : list node :=
  map (fun c => Single (Class [CChar c])) (js s).

End RegExp.
Export RegExp.

(** ** Batch bodies *)

Module Batch.

Definition BATCH_NAME : jsstring := js "batch".

(** [[-0-9a-fA-F]] *)
Definition hex_or_dash : cclass :=
  Class [CChar 45; CRange 48 57; CRange 97 102; CRange 65 70].
(** [[-\w\s\/\.;:=]] *)
Definition header_char : cclass :=
  Class [CChar 45; CWord; CSpace; CChar 47; CChar 46; CChar 59; CChar 58;
         CChar 61].
(** [[-\s\w]] *)
Definition reason_char : cclass := Class [CChar 45; CSpace; CWord].
Definition space : cclass := Class [CSpace].
Definition digit : cclass := Class [CDigit].

(** ['--batchresponse_[-0-9a-fA-F]+\\s'] *)
Definition batchStart : list node :=
  lit "--batchresponse_" ++ [Many1 hex_or_dash; Single space].
(** ['(?:[-\\w\\s\\/\\.;:=]+\\s)\\s'] *)
Definition headers : list node :=
  [Many1 header_char; Single space; Single space].
(** ['HTTP\\/\\d\\.\\d\\s\\d+\\s[-\\s\\w]+\\s'] *)
Definition httpStatus : list node :=
  lit "HTTP/" ++ [Single digit] ++ lit "." ++
  [Single digit; Single space; Many1 digit; Single space;
   Many1 reason_char; Single space].
(** ['(\\{.*\\})\\s+'] *)
Definition jsonData : list node :=
  [GroupOpen] ++ lit "{" ++ [Many0 Dot] ++ lit "}" ++ [GroupClose;
   Many1 space].
(** ['--batchresponse_[-0-9a-fA-F]+--'] *)
Definition batchEnd : list node :=
  lit "--batchresponse_" ++ [Many1 hex_or_dash] ++ lit "--".

Definition batchResponseRegExp : list node :=
  batchStart ++ headers ++ httpStatus ++ headers ++ jsonData ++ batchEnd.

(** [CRMClient.extractBatchData]: group 1 of the first match; without a
    match the function returns nothing ([None] is [undefined]). *)
Definition extractBatchData (textContent : jsstring) : option jsstring :=
  match exec batchResponseRegExp textContent with
  | Some (c, _) => group1 c
  | None => None
  end.

Definition LF : jsstring := [10%N].

(** [CRMClient.makeBatchBody]: the template literal, whose line breaks are
    line feeds.  [CRM_URL] is the configured base URL. *)
Definition makeBatchBody (CRM_URL query fetchXML : jsstring) : jsstring :=
  LF ++
  js "--" ++ BATCH_NAME ++ LF ++
  js "Content-Type: application/http" ++ LF ++
  js "Content-Transfer-Encoding: binary" ++ LF ++
  LF ++
  js "GET " ++ CRM_URL ++ query ++ js "?fetchXml=" ++ fetchXML ++
    js " HTTP/1.1" ++ LF ++
  js "Content-Type: application/json" ++ LF ++
  js "OData-Version: 4.0" ++ LF ++
  js "OData-MaxCersion: 4.0" ++ LF ++
  LF ++
  js "--" ++ BATCH_NAME ++ js "--" ++ LF.

End Batch.
Export Batch.

(** ** The client *)

Module Client.

(** The request handed to [fetch]: URL and options. *)
Record request : Type :=
  { req_method : jsstring;
    req_url : jsstring;
    req_headers : list (jsstring * jsstring);
    req_body : option jsval }.

(** What [fetch] and [res.text()] give: a rejection, or a status and the
    body text. *)
Inductive reply : Type :=
| NetworkFailure
| Reply (status : Z) (text : jsstring).

(** One network exchange: the token the provider hands out ([None]: it
    fails) and the answer of the server to the request. *)
Record exchange : Type :=
  { acquireToken : option jsstring;
    fetch : request -> reply }.

(** The object literal [{ status, content }] that [doFetch] returns. *)
Record response : Type := { status : Z; content : jsval }.

(** What a name such as [res] is bound to: the awaited result of an
    asynchronous call, or the promise itself when nothing awaited it.  A
    promise has no property [content] or [status]. *)
Inductive binding : Type :=
| Awaited (r : response)
| Promise (p : outcome response).

Definition res_content (res : binding) : jsval :=
  match res with
  | Awaited r => content r
  | Promise _ => VUndefined
  end.

(** Console output: a logged exception, or the pieces of a template
    literal. *)
Inductive log_piece : Type :=
| LText (s : jsstring)
| LStatus (z : option Z)
| LValue (v : jsval).

Inductive log_entry : Type :=
| LogError (e : exn)
| LogLine (pieces : list log_piece).

(** The state the methods run in: the console so far and the exchanges the
    network will perform, one for each call of [doFetch]. *)
Record world : Type :=
  { console : list log_entry; network : list exchange }.

(** Members reached through [this] on an instance: its own property and the
    prototype methods of the class.  Static methods belong to the class
    object, not to its instances. *)
Definition instance_members : list jsstring :=
  map js ["ADALClient"; "constructor"; "getToken"; "getHeaders"; "doFetch";
          "doFetchWithRetry"; "doGet"; "doPatch"; "doPost"; "doBatchPost";
          "doDelete"]%string.

Definition static_members : list jsstring :=
  map js ["extractBatchData"; "dateReviver"; "isObjectReferenceError";
          "makeBatchBody"; "processGetResponse"; "parsePrefixedEntity";
          "getNormalizedPropertyName"]%string.

(** The function properties of the standard [Math] object. *)
Definition Math_functions : list jsstring :=
  map js ["abs"; "acos"; "acosh"; "asin"; "asinh"; "atan"; "atanh"; "atan2";
          "cbrt"; "ceil"; "clz32"; "cos"; "cosh"; "exp"; "expm1"; "floor";
          "fround"; "hypot"; "imul"; "log"; "log1p"; "log10"; "log2"; "max";
          "min"; "pow"; "random"; "round"; "sign"; "sin"; "sinh"; "sqrt";
          "tan"; "tanh"; "trunc"]%string.

Definition OBJECT_REFERENCE_ERROR : jsstring :=
  js "Object reference not set to an instance of an object.".

(** [CRMClient.isObjectReferenceError]. *)
Definition isObjectReferenceError (error : jsval) : outcome bool :=
  message <- get_prop error (js "message") ;;
  if truthy message && is_string message OBJECT_REFERENCE_ERROR
  then Ret true
  else Ret false.

(** The configuration read at start-up: the base URL and the retry count.
    The count is a number: the default 1, or a numeric setting (a setting
    read from the environment as text is outside this model). *)
Record config : Type :=
  { CRM_URL : jsstring; OBJECT_REFERENCE_RETRIES : Z }.

(** Parts of the language runtime the client calls: the JSON grammar
    ([None]: the text is not JSON), [JSON.stringify], [Date.parse] (NaN for
    an invalid date), the time value of [new Date(value)], and the functions
    of [Math]. *)
Record runtime : Type :=
  { JSON_text : jsstring -> option jsval;
    JSON_stringify : jsval -> jsstring;
    Date_parse : jsval -> float;
    Date_time : jsval -> float;
    Math_apply : jsstring -> float -> jsval }.

Section WithRuntime.

Variable cfg : config.
Variable rt : runtime.

(** Method call [Math.name(x)]: a name that [Math] does not define is
    [undefined], and calling it throws. *)
Definition call_Math (name : jsstring) (x : float) : outcome jsval :=
  if existsb (eqb name) Math_functions
  then Ret (Math_apply rt name x)
  else Throw TypeError.

(** [CRMClient.dateReviver]. *)
Definition dateReviver (key : jsstring) (value : jsval) : outcome jsval :=
  isNaN <- call_Math (js "isNaN") (Date_parse rt value) ;;
  if truthy isNaN
  then Ret value
  else Ret (VDate (Date_time rt value)).

Definition reviver : Type := jsstring -> jsval -> outcome jsval.

(** The walk [JSON.parse] performs with a reviver: members first, then the
    value itself; a member revived to [undefined] is deleted. *)
Fixpoint internalize (f : reviver) (name : jsstring) (val : jsval)
  {struct val} : outcome jsval :=
  match val with
  | VArr elems =>
      elems' <- (fix members (i : nat) (l : list jsval) :=
                   match l with
                   | [] => Ret []
                   | e :: l' =>
                       e' <- internalize f (index_name i) e ;;
                       r <- members (S i) l' ;;
                       Ret (e' :: r)
                   end) 0%nat elems ;;
      f name (VArr elems')
  | VObj props =>
      props' <- (fix members (l : list (jsstring * jsval)) :=
                   match l with
                   | [] => Ret []
                   | (k, v) :: l' =>
                       v' <- internalize f k v ;;
                       r <- members l' ;;
                       Ret (match v' with
                            | VUndefined => r
                            | _ => (k, v') :: r
                            end)
                   end) props ;;
      f name (VObj props')
  | _ => f name val
  end.

(** [JSON.parse(text, reviver)]: the text is first converted to a string
    ([undefined] reads "undefined"); a reviver that is not a function is
    ignored. *)
Definition JSON_parse (text : option jsstring) (r : option reviver)
  : outcome jsval :=
  let source := match text with Some t => t | None => js "undefined" end in
  match JSON_text rt source with
  | None => Throw SyntaxError
  | Some v =>
      match r with
      | Some f => internalize f [] v
      | None => Ret v
      end
  end.

(** [this.dateReviver] inside an instance method. *)
Definition this_dateReviver : option reviver :=
  if existsb (eqb (js "dateReviver")) instance_members
  then Some dateReviver
  else None.

(** [getHeaders]. *)
Definition getHeaders (isBatch : bool) (x : exchange)
  : outcome (list (jsstring * jsstring)) :=
  let contentType :=
    if isBatch then js "multipart/mixed;boundary=" ++ BATCH_NAME
    else js "application/json; charset=utf-8" in
  match acquireToken x with
  | None => Throw Rejection
  | Some token =>
      Ret [(js "Accept-Encoding", js "gzip, deflate");
           (js "Content-Type", contentType);
           (js "Authorization", js "Bearer " ++ token);
           (js "OData-MaxVersion", js "4.0");
           (js "OData-Version", js "4.0");
           (js "Accept", js "application/json");
           (js "Prefer", js "odata.include-annotations=" ++ [34%N; 42%N; 34%N])]
  end.

Definition typeof_object (v : jsval) : bool :=
  match v with
  | VNull | VDate _ | VArr _ | VObj _ => true
  | _ => false
  end.

(** The content [{ error: { message: text } }]. *)
Definition error_content (text : option jsstring) : jsval :=
  VObj [(js "error",
         VObj [(js "message",
                match text with Some t => VStr t | None => VUndefined end)])].

(** [doFetch] over one exchange: the outcome and what it printed.  The
    parameters default to [null] and [false] when the argument is
    [undefined]. *)
Definition doFetch (method query : jsstring) (data : jsval)
  (isBatch : option bool) (x : exchange) : outcome response * list log_entry :=
  let data := match data with VUndefined => VNull | _ => data end in
  let isBatch := match isBatch with Some b => b | None => false end in
  let failed (err : exn) :=
    (Throw (Error (VStr (js "CRMClient failed to do " ++ method ++ js " request"))),
     [LogError err]) in
  match getHeaders isBatch x with
  | Throw err => failed err
  | Ret headers =>
      let body :=
        if negb (eqb method (js "GET")) && truthy data
        then Some (if typeof_object data then VStr (JSON_stringify rt data)
                   else data)
        else None in
      match fetch x {| req_method := method;
                       req_url := CRM_URL cfg ++ query;
                       req_headers := headers;
                       req_body := body |} with
      | NetworkFailure => failed Rejection
      | Reply st text0 =>
          let text := if isBatch then extractBatchData text0 else Some text0 in
          match JSON_parse text this_dateReviver with
          | Ret json => (Ret {| status := st; content := json |}, [])
          | Throw _ =>
              (Ret {| status := st; content := error_content text |}, [])
          end
      end
  end.

Definition result (A : Type) : Type := option (outcome A * world).

(** One call of [doFetch] in a world; [None] when the script of exchanges
    has run out. *)
Definition fetch_once (method query : jsstring) (data : jsval)
  (isBatch : option bool) (w : world) : result response :=
  match network w with
  | [] => None
  | x :: net =>
      let '(o, printed) := doFetch method query data isBatch x in
      Some (o, {| console := console w ++ printed; network := net |})
  end.

(** The [while (tries)] loop of [doFetchWithRetry]; every turn consumes one
    exchange. *)
Fixpoint retry_loop (method query : jsstring) (data : jsval)
  (isBatch : option bool) (tries : Z) (res : option response)
  (out : list log_entry) (net : list exchange) : result response :=
  if tries =? 0
  then
    (* throw new Error(res.content.error) *)
    Some (match res with
          | None => Throw TypeError
          | Some r =>
              error <- get_prop (content r) (js "error") ;;
              Throw (Error error)
          end,
          {| console := out; network := net |})
  else
    match net with
    | [] => None
    | x :: net' =>
        let '(o, printed) := doFetch method query data isBatch x in
        let out' := out ++ printed in
        let leave (o' : outcome response) :=
          Some (o', {| console := out'; network := net' |}) in
        match o with
        | Throw e => leave (Throw e)
        | Ret r =>
            match get_prop (content r) (js "error") with
            | Throw e => leave (Throw e)
            | Ret error =>
                if truthy error
                then match isObjectReferenceError error with
                     | Throw e => leave (Throw e)
                     | Ret true =>
                         retry_loop method query data isBatch (tries - tries)
                                    (Some r) out' net'
                     | Ret false => leave (Ret r)
                     end
                else leave (Ret r)
            end
        end
    end.

(** [doFetchWithRetry]. *)
Definition doFetchWithRetry (method query : jsstring) (data : jsval)
  (isBatch : option bool) (w : world) : result response :=
  retry_loop method query data isBatch (OBJECT_REFERENCE_RETRIES cfg + 1) None
             (console w) (network w).

(** The tests [res.status === n] and [res.status >= lo && res.status < hi];
    the status of a promise is [undefined]. *)
Definition res_status (res : binding) : option Z :=
  match res with
  | Awaited r => Some (status r)
  | Promise _ => None
  end.

Definition status_is (res : binding) (n : Z) : bool :=
  match res_status res with
  | Some z => z =? n
  | None => false
  end.

Definition status_within (res : binding) (lo hi : Z) : bool :=
  match res_status res with
  | Some z => (lo <=? z) && (z <? hi)
  | None => false
  end.

(** The failure branch shared by the verbs: print the line, return
    [false].  The template literal of the line converts the message to a
    string, which can throw before anything is printed. *)
Definition log_failure (verb : string) (res : binding) (w : world)
  : outcome jsval * world :=
  match (error <- get_prop (res_content res) (js "error") ;;
         message <- get_prop error (js "message") ;;
         if printable message then Ret message else Throw TypeError) with
  | Throw e => (Throw e, w)
  | Ret message =>
      (Ret (VBool false),
       {| console := console w ++
            [LogLine [LText (js verb ++ js " request failed with status: ");
                      LStatus (res_status res); LText (js ", error: ");
                      LValue message]];
          network := network w |})
  end.

(** [doGet]. *)
Definition doGet (query : jsstring) (w : world) : result jsval :=
  match doFetchWithRetry (js "GET") query VUndefined None w with
  | None => None
  | Some (Throw e, w') => Some (Throw e, w')
  | Some (Ret r, w') =>
      let res := Awaited r in
      Some match get_prop (res_content res) (js "error") with
           | Throw e => (Throw e, w')
           | Ret error =>
               if negb (truthy error) && status_is res 200
               then (processGetResponse (res_content res), w')
               else log_failure "GET" res w'
           end
  end.

(** [doPatch]. *)
Definition doPatch (query : jsstring) (body : jsval) (w : world)
  : result jsval :=
  match fetch_once (js "PATCH") query body None w with
  | None => None
  | Some (Throw e, w') => Some (Throw e, w')
  | Some (Ret r, w') =>
      let res := Awaited r in
      Some match get_prop (res_content res) (js "error") with
           | Throw e => (Throw e, w')
           | Ret error =>
               if negb (truthy error) && status_within res 200 300
               then (Ret (res_content res), w')
               else log_failure "PATCH" res w'
           end
  end.

(** [doPost]. *)
Definition doPost (query : jsstring) (body : jsval) (isBatch : option bool)
  (w : world) : result jsval :=
  match doFetchWithRetry (js "POST") query body isBatch w with
  | None => None
  | Some (Throw e, w') => Some (Throw e, w')
  | Some (Ret r, w') =>
      let res := Awaited r in
      Some match get_prop (res_content res) (js "error") with
           | Throw e => (Throw e, w')
           | Ret error =>
               if negb (truthy error) && status_is res 200
               then (Ret (res_content res), w')
               else log_failure "POST" res w'
           end
  end.

(** [doBatchPost]. *)
Definition doBatchPost (query fetchXML : jsstring) (w : world)
  : result jsval :=
  let batchBody := makeBatchBody (CRM_URL cfg) query fetchXML in
  doPost (js "$batch") (VStr batchBody) (Some true) w.

(** [doDelete]: the call of [doFetch] is not awaited, so [res] is the
    promise; the request it started still runs to its end, which the
    resulting world records. *)
Definition doDelete (query : jsstring) (w : world) : result jsval :=
  match fetch_once (js "DELETE") query VUndefined None w with
  | None => None
  | Some (pending, w') =>
      let res := Promise pending in
      Some match get_prop (res_content res) (js "error") with
           | Throw e => (Throw e, w')
           | Ret error =>
               if negb (truthy error) && status_is res 200
               then (Ret (res_content res), w')
               else log_failure "DELETE" res w'
           end
  end.

End WithRuntime.

End Client.
Export Client.

(** ** A runtime to run the client on sample texts *)

Module SampleRuntime.

Definition is_ws (c : code_unit) : bool :=
  N.eqb c 32 || N.eqb c 9 || N.eqb c 10 || N.eqb c 13.

Fixpoint skip_ws (s : jsstring) : jsstring :=
  match s with
  | c :: s' => if is_ws c then skip_ws s' else s
  | [] => []
  end.

(** The characters of a JSON string after its opening quote (no [\u]
    escape). *)
Fixpoint string_body (s acc : jsstring) : option (jsstring * jsstring) :=
  match s with
  | [] => None
  | c :: rest =>
      if N.eqb c 34 then Some (rev acc, rest)
      else if N.eqb c 92 then
        match rest with
        | e :: rest' =>
            let plain (x : code_unit) := string_body rest' (x :: acc) in
            if N.eqb e 34 || N.eqb e 92 || N.eqb e 47 then plain e
            else if N.eqb e 98 then plain 8%N
            else if N.eqb e 102 then plain 12%N
            else if N.eqb e 110 then plain 10%N
            else if N.eqb e 114 then plain 13%N
            else if N.eqb e 116 then plain 9%N
            else None
        | [] => None
        end
      else if (c <? 32)%N then None
      else string_body rest (c :: acc)
  end.

Fixpoint digits (s : jsstring) (acc : Z) : Z * jsstring :=
  match s with
  | c :: s' => if is_digit c then digits s' (10 * acc + (Z.of_N c - 48))
               else (acc, s)
  | [] => (acc, [])
  end.

(** An integer literal (no fraction, no exponent). *)
Definition number (s : jsstring) : option (jsval * jsstring) :=
  let '(neg, s1) := match s with
                    | c :: s' => if N.eqb c 45 then (true, s') else (false, s)
                    | [] => (false, s)
                    end in
  match s1 with
  | d :: after =>
      if is_digit d && (negb (N.eqb d 48) || match after with
                                             | d' :: _ => negb (is_digit d')
                                             | [] => true
                                             end)
      then let '(z, rest) := digits s1 0 in
           match rest with
           | c :: _ => if N.eqb c 46 || N.eqb c 101 || N.eqb c 69 then None
                       else Some (VNum (let f := PrimFloat.of_uint63 (Uint63.of_Z z) in
                                        if neg then PrimFloat.opp f else f), rest)
           | [] => Some (VNum (let f := PrimFloat.of_uint63 (Uint63.of_Z z) in
                               if neg then PrimFloat.opp f else f), rest)
           end
      else None
  | [] => None
  end.

Fixpoint value (fuel : nat) (s : jsstring) {struct fuel}
  : option (jsval * jsstring) :=
  match fuel with
  | O => None
  | S fuel' =>
      match skip_ws s with
      | [] => None
      | c :: rest =>
          if N.eqb c 123 then
            match skip_ws rest with
            | c' :: rest' =>
                if N.eqb c' 125 then Some (VObj [], rest')
                else members fuel' (c' :: rest') []
            | [] => None
            end
          else if N.eqb c 91 then
            match skip_ws rest with
            | c' :: rest' =>
                if N.eqb c' 93 then Some (VArr [], rest')
                else elements fuel' (c' :: rest') []
            | [] => None
            end
          else if N.eqb c 34 then
            match string_body rest [] with
            | Some (str, rest') => Some (VStr str, rest')
            | None => None
            end
          else if prefixb (js "true") (c :: rest)
          then Some (VBool true, skipn 4 (c :: rest))
          else if prefixb (js "false") (c :: rest)
          then Some (VBool false, skipn 5 (c :: rest))
          else if prefixb (js "null") (c :: rest)
          then Some (VNull, skipn 4 (c :: rest))
          else number (c :: rest)
      end
  end

with elements (fuel : nat) (s : jsstring) (acc : list jsval) {struct fuel}
  : option (jsval * jsstring) :=
  match fuel with
  | O => None
  | S fuel' =>
      match value fuel' s with
      | Some (v, s1) =>
          match skip_ws s1 with
          | c :: rest =>
              if N.eqb c 44 then elements fuel' rest (v :: acc)
              else if N.eqb c 93 then Some (VArr (rev (v :: acc)), rest)
              else None
          | [] => None
          end
      | None => None
      end
  end

with members (fuel : nat) (s : jsstring) (acc : list (jsstring * jsval))
  {struct fuel} : option (jsval * jsstring) :=
  match fuel with
  | O => None
  | S fuel' =>
      match skip_ws s with
      | q :: s0 =>
          if N.eqb q 34 then
            match string_body s0 [] with
            | Some (key, s1) =>
                match skip_ws s1 with
                | colon :: s2 =>
                    if N.eqb colon 58 then
                      match value fuel' s2 with
                      | Some (v, s3) =>
                          let acc' := set_own key v acc in
                          match skip_ws s3 with
                          | c :: rest =>
                              if N.eqb c 44 then members fuel' rest acc'
                              else if N.eqb c 125 then Some (VObj acc', rest)
                              else None
                          | [] => None
                          end
                      | None => None
                      end
                    else None
                | [] => None
                end
            | None => None
            end
          else None
      | [] => None
      end
  end.

(** A JSON grammar for the sample texts. *)
Definition parse_json (s : jsstring) : option jsval :=
  match value (S (List.length s)) s with
  | Some (v, rest) => match skip_ws rest with [] => Some v | _ => None end
  | None => None
  end.

Definition sample_rt : runtime :=
  {| JSON_text := parse_json;
     JSON_stringify := fun _ => js "{}";
     Date_parse := fun _ => PrimFloat.nan;
     Date_time := fun _ => PrimFloat.nan;
     Math_apply := fun _ x => VNum x |}.

(** The default configuration: one retry. *)
Definition sample_cfg : config :=
  {| CRM_URL := js "https://crm.example/api/data/v9.1/";
     OBJECT_REFERENCE_RETRIES := 1 |}.

(** A server that gives the same answer to every request. *)
Definition answers (st : Z) (text : jsstring) : exchange :=
  {| acquireToken := Some (js "token"); fetch := fun _ => Reply st text |}.

Definition CRLF : jsstring := [13%N; 10%N].

(** A batch response in the documented format around the text [json]. *)
Definition batch_response (json : jsstring) : jsstring :=
  js "--batchresponse_0f3a-77" ++ CRLF ++
  js "Content-Type: application/http" ++ CRLF ++
  js "Content-Transfer-Encoding: binary" ++ CRLF ++ CRLF ++
  js "HTTP/1.1 200 OK" ++ CRLF ++
  js "Content-Type: application/json; odata.metadata=minimal" ++ CRLF ++
  js "OData-Version: 4.0" ++ CRLF ++ CRLF ++
  json ++ CRLF ++
  js "--batchresponse_0f3a-77--".

(** The same with the closing boundary missing. *)
Definition truncated_batch : jsstring :=
  js "--batchresponse_0f3a-77" ++ CRLF ++
  js "Content-Type: application/http" ++ CRLF ++
  js "Content-Transfer-Encoding: binary" ++ CRLF ++ CRLF ++
  js "HTTP/1.1 200 OK" ++ CRLF ++
  js "Content-Type: application/json; odata.metadata=minimal" ++ CRLF ++
  js "OData-Version: 4.0" ++ CRLF ++ CRLF ++
  jq "{'value':[]}" ++ CRLF.

(** Sample bodies: the transient fault, a collection, a 404 body without
    [error]. *)
Definition fault_text : jsstring :=
  jq "{'error':{'code':'0x0','message':'Object reference not set to an instance of an object.'}}".

Definition contacts_text : jsstring :=
  jq "{'@odata.context':'https://crm.example/api/data/v9.1/$metadata#contacts','value':[{'contactid':'c1','statuscode@OData.Community.Display.V1.FormattedValue':'Active','statuscode':1}]}".

Definition not_found_text : jsstring :=
  jq "{'Message':'No HTTP resource was found'}".

End SampleRuntime.
Export SampleRuntime.

(** ** Vocabulary of the statements *)

Module Vocabulary.

(** The three annotations, by increasing precedence, with the suffix each
    one stands for. *)
Inductive annotation : Type := Formatted | Logical | Navigation.

Definition marker (a : annotation) : jsstring :=
  match a with
  | Formatted => FORMATTED_VALUE
  | Logical => LOGICAL_NAME
  | Navigation => NAVIGATION_PROPERTY
  end.

Definition suffix_of (a : annotation) : jsstring :=
  match a with
  | Formatted => js "_formatted"
  | Logical => js "_logical"
  | Navigation => js "_navigationproperty"
  end.

(** The annotation of highest precedence a name contains. *)
Definition dominant (name : jsstring) : option annotation :=
  if includes name NAVIGATION_PROPERTY then Some Navigation
  else if includes name LOGICAL_NAME then Some Logical
  else if includes name FORMATTED_VALUE then Some Formatted
  else None.

(** The part of a name before the first occurrence of an annotation. *)
Definition base (name : jsstring) (a : annotation) : jsstring :=
  substring name 0 (indexOf name (marker a)).

(** The object [parsePrefixedEntity] builds from the keys [keys]. *)
Definition normalized (data : jsval) (keys : list jsstring)
  : list (jsstring * jsval) :=
  fold_left
    (fun normalizedObject propertyName =>
       assign_own (getNormalizedPropertyName propertyName)
                  (read_own data propertyName) normalizedObject)
    keys [].

Definition sample_entity : list (jsstring * jsval) :=
  [(js "@odata.context", VStr (js "https://crm.example/api/data/v9.1/$metadata#contacts/$entity"));
   (js "name@OData.Community.Display.V1.FormattedValue", VStr (js "Alice"));
   (js "_ownerid_value@Microsoft.Dynamics.CRM.lookuplogicalname",
    VStr (js "systemuser"));
   (js "fullname", VStr (js "Alice Liddell"))].

Definition colliding_entity : list (jsstring * jsval) :=
  [(js "a@OData.Community.Display.V1.FormattedValue", VStr (js "display"));
   (js "a_formatted", VStr (js "raw"))].

(** A name with two annotations, and one that starts with the
    navigation-property annotation and contains the formatted-value one. *)
Definition formatted_and_logical : jsstring :=
  js "a@OData.Community.Display.V1.FormattedValue@Microsoft.Dynamics.CRM.lookuplogicalname".

Definition navigation_first : jsstring :=
  js "@Microsoft.Dynamics.CRM.associatednavigationpropertyab@OData.Community.Display.V1.FormattedValue".

(** The same two properties in the other order. *)
Definition colliding_before : list (jsstring * jsval) :=
  [(js "a_formatted", VStr (js "raw"));
   (js "a@OData.Community.Display.V1.FormattedValue", VStr (js "display"))].

(** [any_split k s lo n]: [k] holds of [s] without some [i] of its first
    characters, for an [i] from [lo] to [n]. *)
Fixpoint any_split (k : jsstring -> bool) (s : jsstring) (lo n : nat) : bool :=
  if (n <? lo)%nat then false
  else k (skipn n s) || match n with
                        | O => false
                        | S n' => any_split k s lo n'
                        end.

(** [accepts p s]: the whole of [s] can be cut along the items of [p], in
    some way (membership in the language of the pattern). *)
Fixpoint accepts (p : list node) (s : jsstring) : bool :=
  match p with
  | [] => match s with [] => true | _ :: _ => false end
  | Single cl :: p' =>
      match s with
      | x :: s' => mem cl x && accepts p' s'
      | [] => false
      end
  | Many1 cl :: p' => any_split (accepts p') s 1 (span cl s)
  | Many0 cl :: p' => any_split (accepts p') s 0 (span cl s)
  | GroupOpen :: p' => accepts p' s
  | GroupClose :: p' => accepts p' s
  end.

(** No item of the pattern takes the character [x]. *)
Definition avoids (x : code_unit) (p : list node) : bool :=
  forallb (fun n => match n with
                    | Single cl | Many1 cl | Many0 cl => negb (mem cl x)
                    | GroupOpen | GroupClose => true
                    end) p.

(** The pattern has no parenthesis of the group. *)
Definition capture_free (p : list node) : bool :=
  forallb (fun n => match n with
                    | GroupOpen | GroupClose => false
                    | _ => true
                    end) p.

(** The two halves of [jsonData]: the captured [\{.*\}] and the [\s+]
    after it. *)
Definition json_blob : list node := lit "{" ++ [Many0 Dot] ++ lit "}".
Definition trailing_space : list node := [Many1 space].

(** What comes before the group in [batchResponseRegExp], the group and
    what follows, and what follows the group. *)
Definition preamble : list node :=
  batchStart ++ headers ++ httpStatus ++ headers.
Definition ending : list node := trailing_space ++ batchEnd.
Definition group_and_ending : list node :=
  GroupOpen :: json_blob ++ GroupClose :: ending.

(** Lines joined by line feeds. *)
Fixpoint join_lines (lines : list jsstring) : jsstring :=
  match lines with
  | [] => []
  | l :: rest =>
      match rest with
      | [] => l
      | _ :: _ => l ++ LF ++ join_lines rest
      end
  end.

(** The batch body in the words of the specification: the ten lines of its
    template, from the opening boundary to the closing one, and nothing
    before or after. *)
Definition spec_batch_template (url query fetchXML : jsstring) : jsstring :=
  join_lines
    [js "--batch";
     js "Content-Type: application/http";
     js "Content-Transfer-Encoding: binary";
     [];
     js "GET " ++ url ++ query ++ js "?fetchXml=" ++ fetchXML ++ js " HTTP/1.1";
     js "Content-Type: application/json";
     js "OData-Version: 4.0";
     js "OData-MaxCersion: 4.0";
     [];
     js "--batch--"].

End Vocabulary.
Export Vocabulary.

(** ** The login route's use of the client *)

Module Login.

(** What [getContactId] can throw: whatever the client throws, or one of
    the two errors of the route. *)
Inductive failure : Type :=
| Thrown (e : exn)
| UnauthError (message : jsstring)
| BadRequestError (message : jsstring).

Inductive login_outcome (A : Type) : Type :=
| Done (a : A)
| Failed (f : failure).
Arguments Done {A} a.
Arguments Failed {A} f.

(** The value of [v.length]: the element or code-unit count of an array or
    a string, or whatever own property a different value has. *)
Inductive length_value : Type :=
| Count (n : nat)
| Other (v : jsval).

Definition read_length (v : jsval) : outcome length_value :=
  match v with
  | VUndefined | VNull => Throw TypeError
  | VArr elems => Ret (Count (List.length elems))
  | VStr s => Ret (Count (List.length s))
  | _ => Ret (Other (read_own v (js "length")))
  end.

Definition length_truthy (len : length_value) : bool :=
  match len with
  | Count n => negb (n =? 0)%nat
  | Other v => truthy v
  end.

Section WithQueries.

Variable cfg : config.
Variable rt : runtime.

(** The FetchXML of the contact query (its module is not part of the
    sources at hand) and the conversion to a number of a value that is
    neither a number nor one of the constants. *)
Variable contactIdXML : jsstring -> jsstring.
Variable ToNumber : jsval -> float.

Definition to_number (v : jsval) : float :=
  match v with
  | VNum f => f
  | VUndefined => PrimFloat.nan
  | VNull => 0%float
  | VBool b => if b then 1%float else 0%float
  | _ => ToNumber v
  end.

(** The test [len > 1]. *)
Definition length_above_one (len : length_value) : bool :=
  match len with
  | Count n => (1 <? n)%nat
  | Other v => PrimFloat.ltb 1%float (to_number v)
  end.

(** [getContactId] of the login route. *)
Definition getContactId (email : jsstring) (w : world)
  : option (login_outcome jsval * world) :=
  match doGet cfg rt (js "contacts?fetchXml=" ++ contactIdXML email) w with
  | None => None
  | Some (Throw e, w') => Some (Failed (Thrown e), w')
  | Some (Ret response, w') =>
      Some
        (match (contacts <- get_prop response (js "value") ;;
                len <- read_length contacts ;;
                Ret (contacts, len)) with
         | Throw e => Failed (Thrown e)
         | Ret (contacts, len) =>
             if negb (length_truthy len)
             then Failed (UnauthError
                            (js "No CRM Contact found for email " ++ email))
             else if length_above_one len
             then Failed (BadRequestError
                            (js "More than one CRM Contact found for email "
                                ++ email))
             else
               match call_map contacts
                       (fun contact => get_prop contact (js "contactid")) with
               | Throw e => Failed (Thrown e)
               | Ret ids => Done (read_own ids (js "0"))
               end
         end,
         w')
  end.

End WithQueries.

End Login.
Export Login.

(** ** Vocabulary of the further statements *)

Module Statements.

(** The failure [doFetch] throws for every transport problem. *)
Definition generic_failure (method : jsstring) : exn :=
  Error (VStr (js "CRMClient failed to do " ++ method ++ js " request")).

(** The token provider fails, or the network call does. *)
Definition transport_fails (x : exchange) : Prop :=
  acquireToken x = None \/ forall req, fetch x req = NetworkFailure.

(** An exchange whose token provider fails. *)
Definition no_token : exchange :=
  {| acquireToken := None; fetch := fun _ => NetworkFailure |}.

(** The request of a batch POST. *)
Definition batch_request (cfg : config) (token query fetchXML : jsstring)
  : request :=
  {| req_method := js "POST";
     req_url := CRM_URL cfg ++ js "$batch";
     req_headers :=
       [(js "Accept-Encoding", js "gzip, deflate");
        (js "Content-Type", js "multipart/mixed;boundary=batch");
        (js "Authorization", js "Bearer " ++ token);
        (js "OData-MaxVersion", js "4.0");
        (js "OData-Version", js "4.0");
        (js "Accept", js "application/json");
        (js "Prefer", js "odata.include-annotations=" ++ [34%N; 42%N; 34%N])];
     req_body := Some (VStr (makeBatchBody (CRM_URL cfg) query fetchXML)) |}.

(** [m] occurs in [s] at position [n]. *)
Definition occurs_at (m s : jsstring) (n : nat) : Prop :=
  prefixb m (skipn n s) = true.

(** A value on which [Object.keys] throws. *)
Definition nullish (v : jsval) : bool :=
  match v with
  | VUndefined | VNull => true
  | _ => false
  end.

(** The object [parsePrefixedEntity] makes of a value that is not null or
    undefined. *)
Definition entity_of (data : jsval) : jsval :=
  VObj (normalized data (map fst (own_props data))).

(** A response with two properties after the one that collides with the
    second of them. *)
Definition shadowed_entity : jsval :=
  VObj [(js "a@OData.Community.Display.V1.FormattedValue", VStr (js "display"));
        (js "a_formatted", VStr (js "raw"));
        (js "b", VNull)].

Definition annotation_eq_dec (a b : annotation) : {a = b} + {a <> b}.
Proof. decide equality. Defined.

(** A server that answers POST requests only. *)
Definition post_only (st : Z) (text : jsstring) : exchange :=
  {| acquireToken := Some (js "token");
     fetch := fun req => if eqb (req_method req) (js "POST")
                         then Reply st text else NetworkFailure |}.

(** The response to the retrieval of a single property. *)
Definition single_property : list (jsstring * jsval) :=
  [(js "@odata.context",
    VStr (js "https://crm.example/api/data/v9.1/$metadata#accounts(1)/name"));
   (js "value", VStr (js "Adventure Works"))].

(** A server that answers the contact query of the samples. *)
Definition sample_contactIdXML (email : jsstring) : jsstring :=
  js "<fetch><filter value='" ++ email ++ js "'/></fetch>".

End Statements.
Export Statements.

(** * Properties *)

(** ** Strings and objects *)

Section StringFacts.

Lemma eqb_eq (a b : jsstring) : eqb a b = true <-> a = b.
Proof.
  revert b; induction a as [|x a IH]; intros [|y b]; simpl; split;
    try congruence; try reflexivity.
  - intros H. apply andb_true_iff in H as [Hx Hab].
    apply N.eqb_eq in Hx. apply IH in Hab. congruence.
  - intros H. injection H as -> ->. rewrite N.eqb_refl. simpl.
    apply IH. reflexivity.
Qed.

Lemma eqb_refl (a : jsstring) : eqb a a = true.
Proof. apply eqb_eq. reflexivity. Qed.

Lemma eqb_neq (a b : jsstring) : eqb a b = false <-> a <> b.
Proof.
  split.
  - intros H E. apply eqb_eq in E. congruence.
  - intros H. destruct (eqb a b) eqn:E; [apply eqb_eq in E; contradiction | reflexivity].
Qed.

Lemma prefixb_split (p s : jsstring) :
  prefixb p s = true -> exists t, s = p ++ t.
Proof.
  revert s; induction p as [|x p IH]; intros s H.
  - exists s. reflexivity.
  - destruct s as [|y s]; simpl in H; [discriminate|].
    apply andb_true_iff in H as [Hx Hp]. apply N.eqb_eq in Hx. subst y.
    destruct (IH _ Hp) as [t ->]. exists t. reflexivity.
Qed.

(** A successful search answers a position of the string at which the
    searched text starts. *)
Lemma indexOf_from_found (search s : jsstring) (i : Z) :
  0 <= i -> indexOf_from s search i <> -1 ->
  exists n : nat,
    indexOf_from s search i = i + Z.of_nat n /\
    (n <= List.length s)%nat /\
    prefixb search (skipn n s) = true.
Proof.
  revert i; induction s as [|c s IH]; intros i Hi H; simpl in *.
  - destruct (prefixb search []) eqn:E; [|congruence].
    exists 0%nat. simpl. rewrite E. split; [lia | split; [lia | reflexivity]].
  - destruct (prefixb search (c :: s)) eqn:E.
    + exists 0%nat. simpl. rewrite E. split; [lia | split; [lia | reflexivity]].
    + destruct (IH (i + 1)) as (n & Hn & Hlen & Hp); [lia | exact H |].
      exists (S n). simpl. split; [lia | split; [lia | exact Hp]].
Qed.

Lemma includes_found (s search : jsstring) :
  includes s search = true ->
  exists n : nat,
    indexOf s search = Z.of_nat n /\
    (n <= List.length s)%nat /\
    prefixb search (skipn n s) = true.
Proof.
  unfold includes, indexOf. intros H.
  apply negb_true_iff, Z.eqb_neq in H.
  destruct (indexOf_from_found search s 0) as (n & Hn & Hl & Hp);
    [lia | exact H |].
  exists n. rewrite Hn. split; [lia | split; [exact Hl | exact Hp]].
Qed.

Lemma substring_prefix (s : jsstring) (n : nat) :
  (n <= List.length s)%nat -> substring s 0 (Z.of_nat n) = firstn n s.
Proof.
  intros H. unfold substring.
  replace (Z.min (Z.max 0 0) (Z.of_nat (List.length s))) with 0 by lia.
  replace (Z.min (Z.max (Z.of_nat n) 0) (Z.of_nat (List.length s)))
    with (Z.of_nat n) by lia.
  replace (Z.min 0 (Z.of_nat n)) with 0 by lia.
  replace (Z.max 0 (Z.of_nat n)) with (Z.of_nat n) by lia.
  rewrite Z.sub_0_r, Nat2Z.id. reflexivity.
Qed.

End StringFacts.

Section ObjectFacts.

Lemma lookup_In (k : jsstring) (v : jsval) (props : list (jsstring * jsval)) :
  NoDup (map fst props) -> In (k, v) props -> lookup k props = Some v.
Proof.
  induction props as [|[k0 v0] props IH]; simpl; intros Hnd Hin; [contradiction|].
  inversion Hnd as [|? ? Hnot Hnd']; subst.
  destruct Hin as [E | Hin].
  - injection E as -> ->. rewrite eqb_refl. reflexivity.
  - destruct (eqb k k0) eqn:E.
    + apply eqb_eq in E. subst k0. exfalso. apply Hnot.
      apply in_map_iff. exists (k, v). split; [reflexivity | exact Hin].
    + apply IH; assumption.
Qed.

Lemma lookup_None_In (k : jsstring) (props : list (jsstring * jsval)) :
  lookup k props = None -> ~ In k (map fst props).
Proof.
  induction props as [|[k0 v0] props IH]; simpl; intros H; [tauto|].
  destruct (eqb k k0) eqn:E; [discriminate|].
  apply eqb_neq in E. intros [F | F]; [congruence | exact (IH H F)].
Qed.

Lemma lookup_replace (k k' : jsstring) (v : jsval)
  (props : list (jsstring * jsval)) :
  lookup k' (replace_prop k v props) =
    if eqb k' k then match lookup k props with
                     | Some _ => Some v
                     | None => None
                     end
    else lookup k' props.
Proof.
  induction props as [|[k0 v0] props IH]; simpl.
  - destruct (eqb k' k); reflexivity.
  - destruct (eqb k k0) eqn:E0; simpl.
    + apply eqb_eq in E0. subst k0. destruct (eqb k' k); reflexivity.
    + destruct (eqb k' k0) eqn:E1.
      * destruct (eqb k' k) eqn:E2; [|reflexivity].
        apply eqb_eq in E1, E2. subst. rewrite eqb_refl in E0. discriminate.
      * exact IH.
Qed.

Lemma lookup_insert_index (n : N) (k k' : jsstring) (v : jsval)
  (props : list (jsstring * jsval)) :
  lookup k props = None ->
  lookup k' (insert_index n k v props) =
    if eqb k' k then Some v else lookup k' props.
Proof.
  induction props as [|[k0 v0] props IH]; simpl; intros Hk.
  - destruct (eqb k' k); reflexivity.
  - destruct (eqb k k0) eqn:E0; [discriminate|].
    assert (Hhere : lookup k' ((k, v) :: (k0, v0) :: props) =
                    if eqb k' k then Some v
                    else if eqb k' k0 then Some v0 else lookup k' props)
      by reflexivity.
    destruct (array_index k0) as [m|]; [destruct (m <? n)%N|]; try exact Hhere.
    simpl. rewrite (IH Hk).
    destruct (eqb k' k0) eqn:E1; [|reflexivity].
    destruct (eqb k' k) eqn:E2; [|reflexivity].
    apply eqb_eq in E1, E2. subst. rewrite eqb_refl in E0. discriminate.
Qed.

Lemma lookup_app_new (k k' : jsstring) (v : jsval)
  (props : list (jsstring * jsval)) :
  lookup k props = None ->
  lookup k' (props ++ [(k, v)]) =
    if eqb k' k then Some v else lookup k' props.
Proof.
  induction props as [|[k0 v0] props IH]; simpl; intros Hk.
  - reflexivity.
  - destruct (eqb k k0) eqn:E0; [discriminate|].
    rewrite (IH Hk).
    destruct (eqb k' k0) eqn:E1; [|reflexivity].
    destruct (eqb k' k) eqn:E2; [|reflexivity].
    apply eqb_eq in E1, E2. subst. rewrite eqb_refl in E0. discriminate.
Qed.

(** Reading after an assignment. *)
Lemma lookup_set_own (k k' : jsstring) (v : jsval)
  (props : list (jsstring * jsval)) :
  lookup k' (set_own k v props) = if eqb k' k then Some v else lookup k' props.
Proof.
  unfold set_own. destruct (lookup k props) eqn:Hk.
  - rewrite lookup_replace, Hk. reflexivity.
  - destruct (array_index k).
    + apply lookup_insert_index. exact Hk.
    + apply lookup_app_new. exact Hk.
Qed.

(** Reading after an assignment. *)
Lemma lookup_assign_own (k k' : jsstring) (v : jsval)
  (props : list (jsstring * jsval)) :
  lookup k' (assign_own k v props)
  = if eqb k (js "__proto__") then lookup k' props
    else if eqb k' k then Some v else lookup k' props.
Proof.
  unfold assign_own. destruct (eqb k (js "__proto__")); [reflexivity|].
  apply lookup_set_own.
Qed.

(** Keys that lead to other names leave a name as it was. *)
Lemma build_lookup_skip (data : jsval) (keys : list jsstring)
  (acc : list (jsstring * jsval)) (n : jsstring) :
  (forall k, In k keys -> getNormalizedPropertyName k <> n) ->
  lookup n (fold_left
              (fun normalizedObject propertyName =>
                 assign_own (getNormalizedPropertyName propertyName)
                            (read_own data propertyName) normalizedObject)
              keys acc)
  = lookup n acc.
Proof.
  revert acc; induction keys as [|k keys IH]; intros acc Hfree;
    cbn [fold_left]; [reflexivity|].
  rewrite IH by (intros k' Hk'; apply Hfree; right; exact Hk').
  rewrite lookup_assign_own.
  destruct (eqb (getNormalizedPropertyName k) (js "__proto__"));
    [reflexivity|].
  destruct (eqb n (getNormalizedPropertyName k)) eqn:E; [|reflexivity].
  apply eqb_eq in E. exfalso. apply (Hfree k); [left; reflexivity|].
  symmetry. exact E.
Qed.

(** A name no key leads to is absent. *)
Lemma normalized_absent (data : jsval) (keys : list jsstring) (n : jsstring) :
  (forall k, In k keys -> getNormalizedPropertyName k <> n) ->
  lookup n (normalized data keys) = None.
Proof.
  intros H. unfold normalized. rewrite (build_lookup_skip _ _ _ _ H).
  reflexivity.
Qed.

(** A name is bound to the value of the last key that leads to it. *)
Lemma normalized_last (data : jsval) (before after : list jsstring)
  (k : jsstring) :
  getNormalizedPropertyName k <> js "__proto__" ->
  (forall k', In k' after ->
              getNormalizedPropertyName k' <> getNormalizedPropertyName k) ->
  lookup (getNormalizedPropertyName k) (normalized data (before ++ k :: after))
  = Some (read_own data k).
Proof.
  intros Hproto Hafter. unfold normalized.
  rewrite fold_left_app. cbn [fold_left].
  rewrite (build_lookup_skip _ _ _ _ Hafter), lookup_assign_own.
  apply eqb_neq in Hproto. rewrite Hproto, eqb_refl. reflexivity.
Qed.

End ObjectFacts.

(** ** Property names *)

Section PropertyNames.

(** The normalised name, by the annotation of highest precedence. *)
Lemma dominant_renamed (name : jsstring) (a : annotation) :
  dominant name = Some a ->
  getNormalizedPropertyName name
  = if indexOf name (marker a) =? 0 then name
    else base name a ++ suffix_of a.
Proof.
  unfold getNormalizedPropertyName, dominant, base.
  destruct (includes name NAVIGATION_PROPERTY);
    [ | destruct (includes name LOGICAL_NAME);
        [ | destruct (includes name FORMATTED_VALUE) ] ];
    intros [= <-]; cbn [index_truthy suffix_truthy marker suffix_of];
    match goal with
    | |- context [negb (?i =? 0)] => destruct (i =? 0); reflexivity
    end.
Qed.

Lemma dominant_included (name : jsstring) (a : annotation) :
  dominant name = Some a -> includes name (marker a) = true.
Proof.
  unfold dominant.
  destruct (includes name NAVIGATION_PROPERTY) eqn:E1;
    [intros [= <-]; exact E1|].
  destruct (includes name LOGICAL_NAME) eqn:E2; [intros [= <-]; exact E2|].
  destruct (includes name FORMATTED_VALUE) eqn:E3; [intros [= <-]; exact E3|].
  discriminate.
Qed.

(** With a non-empty base the name becomes base and suffix. *)
Lemma dominant_cut (name : jsstring) (a : annotation) :
  dominant name = Some a -> indexOf name (marker a) <> 0 ->
  getNormalizedPropertyName name = base name a ++ suffix_of a.
Proof.
  intros H Hi. rewrite (dominant_renamed _ _ H).
  apply Z.eqb_neq in Hi. rewrite Hi. reflexivity.
Qed.

Lemma plain_kept (name : jsstring) :
  dominant name = None -> getNormalizedPropertyName name = name.
Proof.
  unfold getNormalizedPropertyName, dominant.
  destruct (includes name NAVIGATION_PROPERTY); [discriminate|].
  destruct (includes name LOGICAL_NAME); [discriminate|].
  destruct (includes name FORMATTED_VALUE); [discriminate|].
  reflexivity.
Qed.

Lemma marker_head (a : annotation) : exists t, marker a = 64%N :: t.
Proof. destruct a; eexists; reflexivity. Qed.

Lemma suffix_head (a : annotation) : exists t, suffix_of a = 95%N :: t.
Proof. destruct a; eexists; reflexivity. Qed.

(** A renamed key differs from the annotated key. *)
Lemma dominant_moves (name : jsstring) (a : annotation) :
  dominant name = Some a -> indexOf name (marker a) <> 0 ->
  getNormalizedPropertyName name <> name.
Proof.
  intros H Hi. rewrite (dominant_cut _ _ H Hi). unfold base.
  destruct (includes_found _ _ (dominant_included _ _ H)) as (n & Hn & Hl & Hp).
  rewrite Hn, (substring_prefix _ _ Hl).
  apply prefixb_split in Hp as [t Ht].
  destruct (marker_head a) as [m Hm]. destruct (suffix_head a) as [u Hu].
  rewrite Hm in Ht. rewrite Hu. intros E.
  rewrite <- (firstn_skipn n name) in E at 2.
  apply app_inv_head in E. rewrite Ht in E. discriminate.
Qed.

(** No suffix ends as [__proto__] does. *)
Lemma cut_not_proto (b : jsstring) (a : annotation) :
  b ++ suffix_of a <> js "__proto__".
Proof.
  intros E. apply (f_equal (@rev code_unit)) in E.
  rewrite rev_app_distr in E. destruct a; cbn in E; discriminate.
Qed.

(** C10, as amended: when the annotation of highest precedence that a name
    contains (navigation property over lookup logical name over formatted
    value) stands after a non-empty base, the name is cut at the first
    occurrence of that annotation and the suffix of that annotation is
    appended, whatever other annotations the name contains. *)
Theorem annotation_precedence (name : jsstring) (a : annotation) :
  dominant name = Some a ->
  indexOf name (marker a) <> 0 ->
  getNormalizedPropertyName name
  = substring name 0 (indexOf name (marker a)) ++ suffix_of a.
Proof.
  intros Hd Hi. rewrite (dominant_renamed _ _ Hd).
  destruct (indexOf name (marker a) =? 0) eqn:E;
    [apply Z.eqb_eq in E; contradiction | reflexivity].
Qed.

(** A name with the formatted-value and the logical-name annotation. *)
Lemma annotation_precedence_witness :
  getNormalizedPropertyName formatted_and_logical
  = js "a@OData.Community.Display.V1.FormattedValue_logical".
Proof.
  apply (annotation_precedence formatted_and_logical Logical).
  - reflexivity.
  - vm_compute. discriminate.
Defined.

(** C10 as stated fails: with the navigation-property annotation at the
    very start of a name that also contains the formatted-value annotation,
    nothing is cut and no suffix is appended. *)
Lemma navigation_at_start_kept :
  ~ (forall (name : jsstring) (a b : annotation),
       a <> b ->
       includes name (marker a) = true ->
       includes name (marker b) = true ->
       dominant name = Some a ->
       getNormalizedPropertyName name
       = substring name 0 (indexOf name (marker a)) ++ suffix_of a).
Proof.
  intros H.
  specialize (H navigation_first Navigation Formatted).
  vm_compute in H.
  assert (E : forall x y : jsstring, x = y -> List.length x = List.length y)
    by (intros x y ->; reflexivity).
  specialize (E _ _ (H ltac:(discriminate) eq_refl eq_refl eq_refl)).
  vm_compute in E. discriminate.
Qed.

(** C3, as amended: in an entity, a property that no later property shares
    its normalised name with, whose name carries an annotation after a
    non-empty base and no annotation of higher precedence, is found under
    base and suffix ([_formatted], [_logical], [_navigationproperty]) with
    its value; the annotated key is absent unless another property is
    renamed to it; under the same proviso a property without annotation,
    other than [__proto__], keeps its name and value. *)
Theorem normalized_entity (before after : list (jsstring * jsval))
  (k : jsstring) (v : jsval) :
  NoDup (map fst (before ++ (k, v) :: after)) ->
  (forall k', In k' (map fst after) ->
              getNormalizedPropertyName k' <> getNormalizedPropertyName k) ->
  exists out,
    parsePrefixedEntity (VObj (before ++ (k, v) :: after)) = Ret (VObj out) /\
    match dominant k with
    | Some a =>
        indexOf k (marker a) <> 0 ->
        lookup (base k a ++ suffix_of a) out = Some v /\
        ((forall k', In k' (map fst (before ++ after)) ->
                     getNormalizedPropertyName k' <> k) ->
         lookup k out = None)
    | None => k <> js "__proto__" -> lookup k out = Some v
    end.
Proof.
  intros Hnd Hafter.
  set (props := before ++ (k, v) :: after) in *.
  exists (normalized (VObj props) (map fst props)).
  split; [reflexivity|].
  assert (Hkeys : map fst props = map fst before ++ k :: map fst after)
    by (unfold props; rewrite map_app; reflexivity).
  assert (Hread : read_own (VObj props) k = v).
  { unfold read_own. simpl own_props.
    rewrite (lookup_In k v props Hnd); [reflexivity|].
    unfold props. apply in_or_app. right. left. reflexivity. }
  assert (Hlast : getNormalizedPropertyName k <> js "__proto__" ->
                  lookup (getNormalizedPropertyName k)
                         (normalized (VObj props) (map fst props)) = Some v).
  { intros Hproto. rewrite Hkeys, <- Hread.
    apply normalized_last; assumption. }
  destruct (dominant k) as [a|] eqn:Hd.
  - intros Hi. rewrite (dominant_cut _ _ Hd Hi) in Hlast.
    split; [apply Hlast, cut_not_proto|].
    intros Hfree. apply normalized_absent. intros k' Hk'.
    rewrite Hkeys in Hk'. apply in_app_or in Hk' as [Hk' | [<- | Hk']].
    + apply Hfree. rewrite map_app. apply in_or_app. left. exact Hk'.
    + exact (dominant_moves _ _ Hd Hi).
    + apply Hfree. rewrite map_app. apply in_or_app. right. exact Hk'.
  - rewrite (plain_kept _ Hd) in Hlast. exact Hlast.
Qed.

(** An earlier property with the name [a_formatted] does not stand in the
    way: the annotated one comes later and gives the value. *)
Lemma normalized_entity_witness :
  exists out,
    parsePrefixedEntity (VObj colliding_before) = Ret (VObj out) /\
    lookup (js "a_formatted") out = Some (VStr (js "display")) /\
    lookup (js "a@OData.Community.Display.V1.FormattedValue") out = None.
Proof.
  assert (Hnd : NoDup (map fst colliding_before)).
  { repeat (apply NoDup_cons; [simpl; intuition discriminate|]). apply NoDup_nil. }
  destruct (normalized_entity
              [(js "a_formatted", VStr (js "raw"))] []
              (js "a@OData.Community.Display.V1.FormattedValue")
              (VStr (js "display")) Hnd)
    as (out & Hout & Hk).
  - intros k' [].
  - exists out. split; [exact Hout|].
    change (dominant (js "a@OData.Community.Display.V1.FormattedValue"))
      with (Some Formatted) in Hk.
    destruct Hk as [Hb Ha]; [vm_compute; discriminate|].
    split; [exact Hb|].
    apply Ha. intros k' [<- | []]. vm_compute. discriminate.
Defined.

(** C3 as stated fails: a property that already has the name
    [a_formatted] and comes later overwrites the value of the annotated
    one. *)
Lemma formatted_value_overwritten :
  ~ (forall (props : list (jsstring * jsval)) (k : jsstring) (v : jsval),
       NoDup (map fst props) -> In (k, v) props ->
       includes k FORMATTED_VALUE = true ->
       exists out,
         parsePrefixedEntity (VObj props) = Ret (VObj out) /\
         lookup (base k Formatted ++ js "_formatted") out = Some v /\
         lookup k out = None).
Proof.
  intros H.
  destruct (H colliding_entity
              (js "a@OData.Community.Display.V1.FormattedValue")
              (VStr (js "display")))
    as (out & Hout & Hb & _).
  - repeat (apply NoDup_cons; [simpl; intuition discriminate|]). apply NoDup_nil.
  - left. reflexivity.
  - reflexivity.
  - vm_compute in Hout. injection Hout as <-. vm_compute in Hb. discriminate.
Qed.

(** Three more ways the unamended statement fails: an annotation of higher
    precedence decides the name, an annotation at the very start of the
    name leaves it unchanged, and the name [__proto__] is not copied. *)
Example logical_name_wins :
  getNormalizedPropertyName
    (js "a@OData.Community.Display.V1.FormattedValue@Microsoft.Dynamics.CRM.lookuplogicalname")
  = js "a@OData.Community.Display.V1.FormattedValue_logical".
Proof. vm_compute. reflexivity. Qed.

Example empty_base_kept :
  getNormalizedPropertyName (js "@OData.Community.Display.V1.FormattedValue")
  = js "@OData.Community.Display.V1.FormattedValue".
Proof. vm_compute. reflexivity. Qed.

Example proto_not_copied :
  parsePrefixedEntity (VObj [(js "__proto__", VNum 5); (js "a", VNull)])
  = Ret (VObj [(js "a", VNull)]).
Proof. vm_compute. reflexivity. Qed.

End PropertyNames.

(** ** Matching *)

Section Matching.

Lemma span_le_length (cl : cclass) (s : jsstring) :
  (span cl s <= List.length s)%nat.
Proof.
  induction s as [|x s IH]; simpl; [lia|]. destruct (mem cl x); simpl; lia.
Qed.

Lemma span_firstn (cl : cclass) (s : jsstring) (i : nat) :
  (i <= span cl s)%nat -> forallb (mem cl) (firstn i s) = true.
Proof.
  revert i; induction s as [|x s IH]; intros [|i] H; simpl in *;
    try reflexivity; try lia.
  destruct (mem cl x); simpl in *; [apply IH; lia | lia].
Qed.

Lemma span_app (cl : cclass) (u t : jsstring) :
  forallb (mem cl) u = true -> (List.length u <= span cl (u ++ t))%nat.
Proof.
  induction u as [|x u IH]; simpl; intros H; [lia|].
  apply andb_true_iff in H as [Hx Hu]. rewrite Hx. specialize (IH Hu). lia.
Qed.

Lemma span_app_le (cl : cclass) (a t : jsstring) :
  (span cl a <= span cl (a ++ t))%nat.
Proof.
  induction a as [|x a IH]; simpl; [lia|]. destruct (mem cl x); lia.
Qed.

Lemma skipn_app_within (i : nat) (a t : jsstring) :
  (i <= List.length a)%nat -> skipn i (a ++ t) = skipn i a ++ t.
Proof.
  intros H. rewrite skipn_app.
  replace (i - List.length a)%nat with 0%nat by lia. reflexivity.
Qed.

(** What a greedy repetition answers: the longest give-back that lets the
    rest match. *)
Lemma backoff_found {R} (k : jsstring -> option R) (s : jsstring)
  (lo n : nat) (r : R) :
  backoff k s lo n = Some r ->
  exists i, (lo <= i <= n)%nat /\ k (skipn i s) = Some r /\
            forall j, (i < j <= n)%nat -> k (skipn j s) = None.
Proof.
  induction n as [|n IH]; cbn [backoff].
  - destruct (Nat.ltb_spec 0 lo); [discriminate|].
    destruct (k (skipn 0 s)) eqn:E; [|discriminate].
    intros [= <-]. exists 0%nat. split; [lia|]. split; [exact E|]. intros; lia.
  - destruct (Nat.ltb_spec (S n) lo); [discriminate|].
    destruct (k (skipn (S n) s)) eqn:E.
    + intros [= <-]. exists (S n). split; [lia|]. split; [exact E|]. intros; lia.
    + intros Hb. destruct (IH Hb) as (i & Hi & Hk & Hlater).
      exists i. split; [lia|]. split; [exact Hk|].
      intros j Hj. destruct (Nat.eq_dec j (S n)) as [->|]; [exact E|].
      apply Hlater. lia.
Qed.

Lemma backoff_first {R} (k : jsstring -> option R) (s : jsstring)
  (lo n i : nat) (r : R) :
  (lo <= i <= n)%nat -> k (skipn i s) = Some r ->
  (forall j, (i < j <= n)%nat -> k (skipn j s) = None) ->
  backoff k s lo n = Some r.
Proof.
  induction n as [|n IH]; intros Hi Hk Hlater; cbn [backoff].
  - destruct (Nat.ltb_spec 0 lo); [lia|].
    replace i with 0%nat in Hk by lia. rewrite Hk. reflexivity.
  - destruct (Nat.ltb_spec (S n) lo); [lia|].
    destruct (Nat.eq_dec i (S n)) as [->|Hne].
    + rewrite Hk. reflexivity.
    + rewrite (Hlater (S n)) by lia. apply IH; [lia | exact Hk |].
      intros j Hj. apply Hlater. lia.
Qed.

Lemma backoff_progress {R} (k : jsstring -> option R) (s : jsstring)
  (lo n i : nat) :
  (lo <= i <= n)%nat -> k (skipn i s) <> None -> backoff k s lo n <> None.
Proof.
  induction n as [|n IH]; intros Hi Hk; cbn [backoff].
  - destruct (Nat.ltb_spec 0 lo); [lia|].
    replace i with 0%nat in Hk by lia.
    destruct (k (skipn 0 s)); [discriminate | contradiction].
  - destruct (Nat.ltb_spec (S n) lo); [lia|].
    destruct (k (skipn (S n) s)) eqn:E; [discriminate|].
    apply IH; [|exact Hk].
    destruct (Nat.eq_dec i (S n)) as [->|]; [congruence | lia].
Qed.

Lemma any_split_found (k : jsstring -> bool) (s : jsstring) (lo n : nat) :
  any_split k s lo n = true ->
  exists i, (lo <= i <= n)%nat /\ k (skipn i s) = true.
Proof.
  induction n as [|n IH]; cbn [any_split].
  - destruct (Nat.ltb_spec 0 lo); [discriminate|].
    rewrite orb_false_r. intros Hk. exists 0%nat. split; [lia | exact Hk].
  - destruct (Nat.ltb_spec (S n) lo); [discriminate|].
    intros Hs. apply orb_true_iff in Hs as [Hs | Hs].
    + exists (S n). split; [lia | exact Hs].
    + destruct (IH Hs) as (i & Hi & Hk). exists i. split; [lia | exact Hk].
Qed.

Lemma any_split_intro (k : jsstring -> bool) (s : jsstring) (lo n i : nat) :
  (lo <= i <= n)%nat -> k (skipn i s) = true -> any_split k s lo n = true.
Proof.
  induction n as [|n IH]; intros Hi Hk; cbn [any_split].
  - destruct (Nat.ltb_spec 0 lo); [lia|].
    replace i with 0%nat in Hk by lia. rewrite Hk. reflexivity.
  - destruct (Nat.ltb_spec (S n) lo); [lia|].
    destruct (Nat.eq_dec i (S n)) as [->|Hne].
    + rewrite Hk. reflexivity.
    + rewrite IH by (try lia; exact Hk). apply orb_true_r.
Qed.

(** A repetition item of a pattern, seen through its bounds. *)
Lemma accepts_many (cl : cclass) (lo : nat) (p : list node) (s : jsstring) :
  any_split (accepts p) s lo (span cl s) = true ->
  exists u a, s = u ++ a /\ (lo <= List.length u)%nat /\
              forallb (mem cl) u = true /\ accepts p a = true.
Proof.
  intros H. destruct (any_split_found _ _ _ _ H) as (i & Hi & Hk).
  exists (firstn i s), (skipn i s).
  split; [symmetry; apply firstn_skipn|].
  split; [|split; [apply span_firstn; lia | exact Hk]].
  rewrite length_firstn. pose proof (span_le_length cl s). lia.
Qed.

Lemma many_accepts (cl : cclass) (lo : nat) (p : list node) (u a : jsstring) :
  (lo <= List.length u)%nat -> forallb (mem cl) u = true ->
  accepts p a = true ->
  any_split (accepts p) (u ++ a) lo (span cl (u ++ a)) = true.
Proof.
  intros Hlo Hu Ha.
  apply (any_split_intro _ _ _ _ (List.length u)).
  - split; [exact Hlo | apply span_app; exact Hu].
  - rewrite skipn_app_within, skipn_all by lia. exact Ha.
Qed.

(** Pieces accepted by patterns make a text accepted by the patterns put
    together. *)
Lemma accepts_app (p q : list node) (a b : jsstring) :
  accepts p a = true -> accepts q b = true -> accepts (p ++ q) (a ++ b) = true.
Proof.
  revert a; induction p as [|n p IH]; intros a Ha Hb.
  - destruct a; [exact Hb | discriminate].
  - destruct n as [cl|cl|cl| |]; cbn [accepts app] in *.
    + destruct a as [|x a]; [discriminate|].
      apply andb_true_iff in Ha as [Hx Ha]. cbn. rewrite Hx. cbn.
      apply IH; assumption.
    + destruct (accepts_many _ _ _ _ Ha) as (u & a' & -> & Hlo & Hu & Ha').
      rewrite <- app_assoc. apply many_accepts; [exact Hlo | exact Hu |].
      apply IH; assumption.
    + destruct (accepts_many _ _ _ _ Ha) as (u & a' & -> & Hlo & Hu & Ha').
      rewrite <- app_assoc. apply many_accepts; [exact Hlo | exact Hu |].
      apply IH; assumption.
    + apply IH; assumption.
    + apply IH; assumption.
Qed.

(** A character that no item takes does not occur in an accepted text. *)
Lemma accepts_avoids (x : code_unit) (p : list node) (a : jsstring) :
  avoids x p = true -> accepts p a = true -> ~ In x a.
Proof.
  assert (Hcl : forall cl u, mem cl x = false -> forallb (mem cl) u = true ->
                             ~ In x u).
  { intros cl u Hx Hu Hin. rewrite forallb_forall in Hu.
    specialize (Hu _ Hin). congruence. }
  revert a; induction p as [|n p IH]; intros a Hav Ha.
  - destruct a; [intros [] | discriminate].
  - cbn [avoids forallb] in Hav. apply andb_true_iff in Hav as [Hn Hav].
    destruct n as [cl|cl|cl| |]; cbn [accepts] in Ha.
    + destruct a as [|y a]; [discriminate|].
      apply andb_true_iff in Ha as [Hy Ha]. apply negb_true_iff in Hn.
      intros [-> | Hin]; [congruence | exact (IH _ Hav Ha Hin)].
    + destruct (accepts_many _ _ _ _ Ha) as (u & a' & -> & _ & Hu & Ha').
      apply negb_true_iff in Hn. intros Hin.
      apply in_app_or in Hin as [Hin | Hin];
        [exact (Hcl _ _ Hn Hu Hin) | exact (IH _ Hav Ha' Hin)].
    + destruct (accepts_many _ _ _ _ Ha) as (u & a' & -> & _ & Hu & Ha').
      apply negb_true_iff in Hn. intros Hin.
      apply in_app_or in Hin as [Hin | Hin];
        [exact (Hcl _ _ Hn Hu Hin) | exact (IH _ Hav Ha' Hin)].
    + exact (IH _ Hav Ha).
    + exact (IH _ Hav Ha).
Qed.

(** A pattern without parenthesis leaves the captures as they are. *)
Lemma run_capture_free (p : list node) (s rest : jsstring) (c c' : captures) :
  capture_free p = true -> run p s c = Some (c', rest) -> c' = c.
Proof.
  revert s; induction p as [|n p IH]; intros s Hcf Hrun.
  - cbn in Hrun. congruence.
  - cbn [capture_free forallb] in Hcf. apply andb_true_iff in Hcf as [Hn Hcf].
    destruct n as [cl|cl|cl| |]; try discriminate; cbn [run] in Hrun.
    + destruct s as [|x s]; [discriminate|].
      destruct (mem cl x); [exact (IH _ Hcf Hrun) | discriminate].
    + destruct (backoff_found _ _ _ _ _ Hrun) as (i & _ & Hk & _).
      exact (IH _ Hcf Hk).
    + destruct (backoff_found _ _ _ _ _ Hrun) as (i & _ & Hk & _).
      exact (IH _ Hcf Hk).
Qed.

(** When a text accepted by [p] is followed by a text on which [q]
    matches, [p ++ q] matches. *)
Lemma run_complete (p q : list node) (a t : jsstring) (c : captures) :
  capture_free p = true -> accepts p a = true ->
  run q t c <> None -> run (p ++ q) (a ++ t) c <> None.
Proof.
  revert a; induction p as [|n p IH]; intros a Hcf Ha Hq.
  - destruct a; [exact Hq | discriminate].
  - cbn [capture_free forallb] in Hcf. apply andb_true_iff in Hcf as [Hn Hcf].
    destruct n as [cl|cl|cl| |]; try discriminate; cbn [accepts] in Ha;
      cbn [run app].
    + destruct a as [|x a]; [discriminate|].
      apply andb_true_iff in Ha as [Hx Ha]. cbn [app]. rewrite Hx.
      exact (IH _ Hcf Ha Hq).
    + destruct (accepts_many _ _ _ _ Ha) as (u & a' & -> & Hlo & Hu & Ha').
      apply (backoff_progress _ _ _ _ (List.length u)).
      * split; [exact Hlo|]. rewrite <- app_assoc. apply span_app. exact Hu.
      * rewrite <- app_assoc, skipn_app_within, skipn_all by lia.
        exact (IH _ Hcf Ha' Hq).
    + destruct (accepts_many _ _ _ _ Ha) as (u & a' & -> & Hlo & Hu & Ha').
      apply (backoff_progress _ _ _ _ (List.length u)).
      * split; [exact Hlo|]. rewrite <- app_assoc. apply span_app. exact Hu.
      * rewrite <- app_assoc, skipn_app_within, skipn_all by lia.
        exact (IH _ Hcf Ha' Hq).
Qed.

(** Whatever way [p ++ q] matches, [p] has taken a text it accepts and [q]
    matches on what follows. *)
Lemma run_sound (p q : list node) (s : jsstring) (c : captures)
  (r : captures * jsstring) :
  capture_free p = true -> run (p ++ q) s c = Some r ->
  exists a t, s = a ++ t /\ accepts p a = true /\ run q t c = Some r.
Proof.
  revert s; induction p as [|n p IH]; intros s Hcf Hrun.
  - exists [], s. split; [reflexivity|]. split; [reflexivity | exact Hrun].
  - cbn [capture_free forallb] in Hcf. apply andb_true_iff in Hcf as [Hn Hcf].
    destruct n as [cl|cl|cl| |]; try discriminate; cbn [run app] in Hrun.
    + destruct s as [|x s]; [discriminate|].
      destruct (mem cl x) eqn:Hx; [|discriminate].
      destruct (IH _ Hcf Hrun) as (a & t & -> & Ha & Hq).
      exists (x :: a), t. split; [reflexivity|].
      split; [cbn; rewrite Hx; exact Ha | exact Hq].
    + destruct (backoff_found _ _ _ _ _ Hrun) as (i & Hi & Hk & _).
      destruct (IH _ Hcf Hk) as (a & t & Hs & Ha & Hq).
      exists (firstn i s ++ a), t.
      split; [rewrite <- app_assoc, <- Hs; symmetry; apply firstn_skipn|].
      split; [|exact Hq]. cbn [accepts]. apply many_accepts; [| |exact Ha].
      * rewrite length_firstn. pose proof (span_le_length cl s). lia.
      * apply span_firstn. lia.
    + destruct (backoff_found _ _ _ _ _ Hrun) as (i & Hi & Hk & _).
      destruct (IH _ Hcf Hk) as (a & t & Hs & Ha & Hq).
      exists (firstn i s ++ a), t.
      split; [rewrite <- app_assoc, <- Hs; symmetry; apply firstn_skipn|].
      split; [|exact Hq]. cbn [accepts]. apply many_accepts; [| |exact Ha].
      * lia.
      * apply span_firstn. lia.
Qed.

(** Two cuts of a text just before a character that neither head
    contains are the same cut. *)
Lemma cut_before_unique (x : code_unit) (a a' t t' : jsstring) :
  a ++ x :: t = a' ++ x :: t' -> ~ In x a -> ~ In x a' -> a = a' /\ t = t'.
Proof.
  revert a'; induction a as [|y a IH]; intros [|y' a'] E Ha Ha'; cbn in E.
  - injection E as ->. split; reflexivity.
  - injection E as <- _. exfalso. apply Ha'. left. reflexivity.
  - injection E as -> _. exfalso. apply Ha. left. reflexivity.
  - injection E as -> E.
    destruct (IH a' E) as [-> ->].
    + intros H. apply Ha. right. exact H.
    + intros H. apply Ha'. right. exact H.
    + split; reflexivity.
Qed.

End Matching.

(** ** Batch responses *)

Section BatchResponses.

Lemma regexp_parts : batchResponseRegExp = preamble ++ group_and_ending.
Proof. reflexivity. Qed.

Lemma mem_char (x y : code_unit) : mem (Class [CChar x]) y = true -> y = x.
Proof.
  cbn. rewrite orb_false_r. apply N.eqb_eq.
Qed.

(** The captured text is a brace, characters of one line, a brace. *)
Lemma blob_shape (json : jsstring) :
  accepts json_blob json = true ->
  exists mid : jsstring,
    json = 123%N :: mid ++ [125%N] /\ forallb (mem Dot) mid = true.
Proof.
  change json_blob
    with [Single (Class [CChar 123]); Many0 Dot; Single (Class [CChar 125])].
  cbn [accepts]. destruct json as [|x s1]; [discriminate|].
  intros H. apply andb_true_iff in H as [Hx H]. apply mem_char in Hx. subst x.
  destruct (accepts_many Dot 0 [Single (Class [CChar 125])] s1 H)
    as (mid & a & -> & _ & Hmid & Ha).
  destruct a as [|y [|z a]]; cbn in Ha; try discriminate.
  - exists mid. split; [|exact Hmid].
    rewrite orb_false_r, andb_true_r in Ha. apply N.eqb_eq in Ha. subst y.
    reflexivity.
  - rewrite andb_false_r in Ha. discriminate.
Qed.

Lemma skipn_In (x : code_unit) (n : nat) (l : jsstring) :
  In x (skipn n l) -> In x l.
Proof.
  intros H. rewrite <- (firstn_skipn n l). apply in_or_app. right. exact H.
Qed.

(** A pattern that starts with a character fails where the character does
    not occur. *)
Lemma single_fails (x : code_unit) (p : list node) (l : jsstring) (n : nat)
  (c : captures) :
  ~ In x l -> run (Single (Class [CChar x]) :: p) (skipn n l) c = None.
Proof.
  intros Hx. cbn [run]. destruct (skipn n l) as [|y s'] eqn:E; [reflexivity|].
  destruct (mem (Class [CChar x]) y) eqn:Hy; [|reflexivity].
  apply mem_char in Hy. subst y. exfalso. apply Hx. apply (skipn_In _ n).
  rewrite E. left. reflexivity.
Qed.

(** After the opening brace: the repetition gives back what follows the
    last closing brace, and the group ends there. *)
Lemma run_blob (mid bc : jsstring) (c : captures) :
  forallb (mem Dot) mid = true ->
  accepts ending bc = true ->
  exists rest,
    run (json_blob ++ GroupClose :: ending) (123%N :: mid ++ 125%N :: bc) c
    = Some ({| group_start := group_start c; group_end := Some bc |}, rest).
Proof.
  intros Hmid Hend.
  assert (Hno : ~ In 125%N bc)
    by (apply (accepts_avoids _ ending); [reflexivity | exact Hend]).
  set (c2 := {| group_start := group_start c; group_end := Some bc |}).
  assert (Htail : exists rest, run ending bc c2 = Some (c2, rest)).
  { destruct (run ending bc c2) as [[c' rest]|] eqn:E.
    - exists rest. rewrite (run_capture_free ending bc rest c2 c' eq_refl E).
      reflexivity.
    - exfalso.
      apply (run_complete ending [] bc [] c2 eq_refl Hend); [discriminate|].
      rewrite !app_nil_r. exact E. }
  destruct Htail as [rest Htail]. exists rest.
  change (json_blob ++ GroupClose :: ending)
    with (Single (Class [CChar 123]) :: Many0 Dot
          :: Single (Class [CChar 125]) :: GroupClose :: ending).
  change (run (Single (Class [CChar 123]) :: Many0 Dot
               :: Single (Class [CChar 125]) :: GroupClose :: ending)
              (123%N :: mid ++ 125%N :: bc) c)
    with (backoff
            (fun s' => run (Single (Class [CChar 125]) :: GroupClose :: ending)
                           s' c)
            (mid ++ 125%N :: bc) 0 (span Dot (mid ++ 125%N :: bc))).
  apply (backoff_first _ _ _ _ (List.length mid)).
  - split; [lia | apply span_app; exact Hmid].
  - rewrite skipn_app_within, skipn_all by lia. exact Htail.
  - intros j Hj.
    replace j with (S (j - S (List.length mid)) + List.length mid)%nat by lia.
    rewrite <- skipn_skipn, skipn_app_within, skipn_all by lia.
    apply (single_fails 125%N _ bc). exact Hno.
Qed.

(** On the JSON text, the blank and the closing boundary, the group takes
    exactly the JSON text. *)
Lemma run_group (json blank closing : jsstring) :
  accepts json_blob json = true ->
  accepts trailing_space blank = true ->
  accepts batchEnd closing = true ->
  exists rest,
    run group_and_ending (json ++ blank ++ closing) no_captures
    = Some ({| group_start := Some (json ++ blank ++ closing);
               group_end := Some (blank ++ closing) |}, rest).
Proof.
  intros Hjson Hblank Hclosing.
  destruct (blob_shape _ Hjson) as (mid & -> & Hmid).
  assert (Hend : accepts ending (blank ++ closing) = true)
    by (apply accepts_app; assumption).
  match goal with
  | |- context [run _ ?s _] =>
      replace s with (123%N :: mid ++ 125%N :: blank ++ closing)
        by (cbn [app]; rewrite <- app_assoc; reflexivity)
  end.
  destruct (run_blob mid (blank ++ closing)
              {| group_start := Some (123%N :: mid ++ 125%N :: blank ++ closing);
                 group_end := None |} Hmid Hend) as [rest Hrun].
  exists rest. exact Hrun.
Qed.

Lemma firstn_drop_tail (a b : jsstring) :
  firstn (List.length (a ++ b) - List.length b) (a ++ b) = a.
Proof.
  rewrite length_app.
  replace (List.length a + List.length b - List.length b)%nat
    with (List.length a + 0)%nat by lia.
  rewrite firstn_app_2. cbn [firstn]. apply app_nil_r.
Qed.

Lemma exec_at_start (p : list node) (s : jsstring) (r : captures * jsstring) :
  run p s no_captures = Some r -> exec p s = Some r.
Proof. intros H. destruct s; cbn [exec]; rewrite H; reflexivity. Qed.

(** C8: on a body made of an opening boundary, header lines, a status line,
    header lines, a JSON text in braces on one line, blank characters and a
    closing boundary (each piece accepted by its part of the pattern),
    [extractBatchData] answers exactly the JSON text. *)
Theorem extractBatchData_inner_json
  (opening head1 statusline head2 json blank closing : jsstring) :
  accepts batchStart opening = true ->
  accepts headers head1 = true ->
  accepts httpStatus statusline = true ->
  accepts headers head2 = true ->
  accepts json_blob json = true ->
  accepts trailing_space blank = true ->
  accepts batchEnd closing = true ->
  extractBatchData
    (opening ++ head1 ++ statusline ++ head2 ++ json ++ blank ++ closing)
  = Some json.
Proof.
  intros Ho Hh1 Hst Hh2 Hjson Hblank Hclosing.
  assert (Hbody :
            opening ++ head1 ++ statusline ++ head2 ++ json ++ blank ++ closing
            = (opening ++ head1 ++ statusline ++ head2)
                ++ (json ++ blank ++ closing))
    by (repeat rewrite <- app_assoc; reflexivity).
  rewrite Hbody. clear Hbody.
  assert (Ha0 : accepts preamble (opening ++ head1 ++ statusline ++ head2) = true)
    by (unfold preamble; repeat (apply accepts_app; try assumption)).
  revert Ha0. generalize (opening ++ head1 ++ statusline ++ head2).
  intros a0 Ha0.
  destruct (run_group _ _ _ Hjson Hblank Hclosing) as [rest Hgroup].
  destruct (blob_shape _ Hjson) as (mid & Hmid & _).
  remember (json ++ blank ++ closing) as t0 eqn:Et0.
  assert (Ht0 : t0 = 123%N :: (mid ++ [125%N]) ++ blank ++ closing)
    by (rewrite Et0, Hmid; reflexivity).
  pose proof (run_complete preamble group_and_ending a0 t0 no_captures
                eq_refl Ha0) as Hsome.
  destruct (run (preamble ++ group_and_ending) (a0 ++ t0) no_captures)
    as [r|] eqn:Hrun;
    [|exfalso; apply Hsome; [rewrite Hgroup; discriminate | reflexivity]].
  destruct (run_sound preamble group_and_ending _ _ _ eq_refl Hrun)
    as (a' & t' & Hcut & Ha' & Hq).
  assert (Hbrace' : exists u', t' = 123%N :: u').
  { revert Hq. unfold group_and_ending.
    change json_blob
      with [Single (Class [CChar 123]); Many0 Dot; Single (Class [CChar 125])].
    cbn [run app]. destruct t' as [|y u']; [discriminate|].
    destruct (mem (Class [CChar 123]) y) eqn:Hy; [|discriminate].
    apply mem_char in Hy. subst y. intros _. exists u'. reflexivity. }
  destruct Hbrace' as [u' Ht'].
  assert (Hsame : t' = t0).
  { rewrite Ht', Ht0 in Hcut. rewrite Ht', Ht0.
    destruct (cut_before_unique 123%N _ _ _ _ Hcut) as [_ Hu'].
    - apply (accepts_avoids _ preamble); [reflexivity | exact Ha0].
    - apply (accepts_avoids _ preamble); [reflexivity | exact Ha'].
    - rewrite Hu'. reflexivity. }
  rewrite Hsame, Hgroup in Hq. injection Hq as <-.
  unfold extractBatchData. rewrite regexp_parts, (exec_at_start _ _ _ Hrun).
  unfold group1. cbn [group_start group_end].
  rewrite Et0, firstn_drop_tail. reflexivity.
Qed.

End BatchResponses.

(** ** Batch request bodies *)

Section BatchBody.

(** C9, as amended: the body is one line feed, the ten lines of the
    template joined by line feeds (with [OData-MaxCersion: 4.0] as it is
    written), and one line feed after the closing boundary; nothing else. *)
Theorem makeBatchBody_template (url query fetchXML : jsstring) :
  makeBatchBody url query fetchXML
  = LF ++ spec_batch_template url query fetchXML ++ LF.
Proof.
  unfold makeBatchBody, spec_batch_template, join_lines, BATCH_NAME. cbn [LF].
  repeat rewrite <- app_assoc. cbn. reflexivity.
Qed.

(** C9 as stated fails: the body does not start at the opening boundary but
    with an empty line. *)
Lemma makeBatchBody_leading_line_feed :
  makeBatchBody (CRM_URL sample_cfg) (js "contacts") (js "<fetch/>")
  <> spec_batch_template (CRM_URL sample_cfg) (js "contacts") (js "<fetch/>")
  /\ hd_error (makeBatchBody (CRM_URL sample_cfg) (js "contacts") (js "<fetch/>"))
     = Some 10%N.
Proof. split; [vm_compute; discriminate | reflexivity]. Qed.

End BatchBody.

(** ** Decoding a response *)

Section Decoding.

Variable cfg : config.
Variable rt : runtime.

(** [dateReviver] is declared static, so [this.dateReviver] is [undefined]
    inside an instance method. *)
Lemma dateReviver_static :
  existsb (eqb (js "dateReviver")) static_members = true /\
  existsb (eqb (js "dateReviver")) instance_members = false.
Proof. split; reflexivity. Qed.

Lemma this_dateReviver_undefined : this_dateReviver rt = None.
Proof. reflexivity. Qed.

(** [Math] has no function [isNaN]. *)
Lemma Math_isNaN_undefined (x : float) : call_Math rt (js "isNaN") x = Throw TypeError.
Proof. reflexivity. Qed.

(** C2, what the code does: every call of [dateReviver] throws a
    [TypeError], whatever the key and the value, and the parse of a response
    body runs without reviver, so that no string of a response is turned
    into a date. *)
Theorem dateReviver_never_revives :
  (forall key value, dateReviver rt key value = Throw TypeError) /\
  (forall text,
     JSON_parse rt text (this_dateReviver rt) =
       match JSON_text rt (match text with
                           | Some t => t
                           | None => js "undefined"
                           end) with
       | Some v => Ret v
       | None => Throw SyntaxError
       end).
Proof.
  split.
  - intros key value. unfold dateReviver. rewrite Math_isNaN_undefined.
    reflexivity.
  - intros text. unfold JSON_parse. rewrite this_dateReviver_undefined.
    reflexivity.
Qed.

(** Were [dateReviver] handed to [JSON.parse], the walk would throw on the
    first value it revives. *)
Lemma internalize_dateReviver :
  forall (v : jsval) (name : jsstring),
    internalize (dateReviver rt) name v = Throw TypeError.
Proof.
  fix IH 1. intros [ | | b | f | str | t | elems | props] name;
    try reflexivity.
  - destruct elems as [|e elems]; [reflexivity|].
    cbn [internalize]. rewrite (IH e). reflexivity.
  - destruct props as [|[k v] props]; [reflexivity|].
    cbn [internalize]. rewrite (IH v). reflexivity.
Qed.

(** A reply whose text is JSON is decoded to that JSON. *)
Lemma doFetch_json (method query : jsstring) (data : jsval) (x : exchange)
  (token text : jsstring) (st : Z) (c : jsval) :
  acquireToken x = Some token ->
  (forall req, fetch x req = Reply st text) ->
  JSON_text rt text = Some c ->
  doFetch cfg rt method query data None x
  = (Ret {| status := st; content := c |}, []).
Proof.
  intros Htok Hfetch Hjson. unfold doFetch, getHeaders.
  rewrite Htok, Hfetch. unfold JSON_parse. rewrite Hjson.
  reflexivity.
Qed.

(** A reply whose text is not JSON becomes an error carrying the text. *)
Lemma doFetch_text (method query : jsstring) (data : jsval) (x : exchange)
  (token text : jsstring) (st : Z) :
  acquireToken x = Some token ->
  (forall req, fetch x req = Reply st text) ->
  JSON_text rt text = None ->
  doFetch cfg rt method query data None x
  = (Ret {| status := st; content := error_content (Some text) |}, []).
Proof.
  intros Htok Hfetch Hjson. unfold doFetch, getHeaders.
  rewrite Htok, Hfetch. unfold JSON_parse. rewrite Hjson.
  reflexivity.
Qed.

(** C4, what the code does: when the text of a batch reply does not match
    the pattern, the decoded content is an error whose message is
    [undefined] (the raw text is lost), and nothing is thrown. *)
Theorem unmatched_batch_loses_text (method query : jsstring) (data : jsval)
  (x : exchange) (token text : jsstring) (st : Z) :
  acquireToken x = Some token ->
  (forall req, fetch x req = Reply st text) ->
  extractBatchData text = None ->
  JSON_text rt (js "undefined") = None ->
  doFetch cfg rt method query data (Some true) x
  = (Ret {| status := st;
            content := VObj [(js "error",
                              VObj [(js "message", VUndefined)])] |}, []).
Proof.
  intros Htok Hfetch Hno Hjson. unfold doFetch, getHeaders.
  rewrite Htok, Hfetch, Hno. unfold JSON_parse. rewrite Hjson.
  reflexivity.
Qed.

(** A batch reply that matches is decoded from its JSON part. *)
Lemma doFetch_batch (method query : jsstring) (data : jsval) (x : exchange)
  (token text inner : jsstring) (st : Z) (c : jsval) :
  acquireToken x = Some token ->
  (forall req, fetch x req = Reply st text) ->
  extractBatchData text = Some inner ->
  JSON_text rt inner = Some c ->
  doFetch cfg rt method query data (Some true) x
  = (Ret {| status := st; content := c |}, []).
Proof.
  intros Htok Hfetch Hin Hjson. unfold doFetch, getHeaders.
  rewrite Htok, Hfetch, Hin. unfold JSON_parse. rewrite Hjson.
  reflexivity.
Qed.

End Decoding.

(** ** Single entities and collections *)

Section GetResponses.

(** A context naming a single entity: the object itself is normalised. *)
Lemma processGetResponse_entity (props : list (jsstring * jsval))
  (context : jsstring) :
  lookup (js "@odata.context") props = Some (VStr context) ->
  includes context (js "/$entity") = true ->
  processGetResponse (VObj props)
  = Ret (VObj (normalized (VObj props) (map fst props))).
Proof.
  intros Hc Hi. unfold processGetResponse, get_prop. simpl own_props.
  rewrite Hc. simpl. rewrite Hi. reflexivity.
Qed.

(** Another context and a [value] array: the elements are normalised in
    place. *)
Lemma processGetResponse_collection (props : list (jsstring * jsval))
  (context : jsstring) (elems : list jsval) :
  lookup (js "@odata.context") props = Some (VStr context) ->
  includes context (js "/$entity") = false ->
  lookup (js "value") props = Some (VArr elems) ->
  processGetResponse (VObj props)
  = (mapped <- map_outcome parsePrefixedEntity elems ;;
     Ret (VObj (replace_prop (js "value") (VArr mapped) props))).
Proof.
  intros Hc Hi Hv. unfold processGetResponse, get_prop. simpl own_props.
  rewrite Hc. simpl. rewrite Hi, Hv. simpl.
  destruct (map_outcome parsePrefixedEntity elems); simpl; [|reflexivity].
  unfold assign, assign_own, set_own.
  change (eqb (js "value") (js "__proto__")) with false.
  cbv iota. rewrite Hv. reflexivity.
Qed.

(** Another context and no [value]: the JSON is returned as it is. *)
Lemma processGetResponse_other (props : list (jsstring * jsval))
  (context : jsstring) :
  lookup (js "@odata.context") props = Some (VStr context) ->
  includes context (js "/$entity") = false ->
  lookup (js "value") props = None ->
  processGetResponse (VObj props) = Ret (VObj props).
Proof.
  intros Hc Hi Hv. unfold processGetResponse, get_prop. simpl own_props.
  rewrite Hc. simpl. rewrite Hi, Hv. reflexivity.
Qed.

(** C7, what the code does: a JSON object without the key
    [@odata.context] is not returned as it is; reading [includes] on the
    missing context throws a [TypeError], with or without a [value] array. *)
Theorem processGetResponse_without_context (props : list (jsstring * jsval)) :
  lookup (js "@odata.context") props = None ->
  processGetResponse (VObj props) = Throw TypeError.
Proof.
  intros Hc. unfold processGetResponse, get_prop. simpl own_props.
  rewrite Hc. reflexivity.
Qed.

End GetResponses.

(** ** Retries and verbs *)

Section Verbs.

Variable cfg : config.
Variable rt : runtime.

Lemma retry_loop_done (method query : jsstring) (data : jsval)
  (isBatch : option bool) (res : option response) (out : list log_entry)
  (net : list exchange) :
  retry_loop cfg rt method query data isBatch 0 res out net
  = Some (match res with
          | None => Throw TypeError
          | Some r =>
              error <- get_prop (content r) (js "error") ;;
              Throw (Error error)
          end,
          {| console := out; network := net |}).
Proof. destruct net; reflexivity. Qed.

Lemma fault_recognised (error : jsval) :
  get_prop error (js "message") = Ret (VStr OBJECT_REFERENCE_ERROR) ->
  isObjectReferenceError error = Ret true.
Proof. intros H. unfold isObjectReferenceError. rewrite H. reflexivity. Qed.


(** A first answer that is not the transient fault is returned. *)
Lemma retry_returns_first_answer (method query : jsstring) (data : jsval)
  (isBatch : option bool) (x : exchange) (net : list exchange)
  (out printed : list log_entry) (r : response) (error : jsval) :
  0 <= OBJECT_REFERENCE_RETRIES cfg ->
  doFetch cfg rt method query data isBatch x = (Ret r, printed) ->
  get_prop (content r) (js "error") = Ret error ->
  truthy error = false \/ isObjectReferenceError error = Ret false ->
  doFetchWithRetry cfg rt method query data isBatch
                   {| console := out; network := x :: net |}
  = Some (Ret r, {| console := out ++ printed; network := net |}).
Proof.
  intros HR Hfetch Herr Hno. unfold doFetchWithRetry. simpl.
  destruct (OBJECT_REFERENCE_RETRIES cfg + 1 =? 0) eqn:E;
    [apply Z.eqb_eq in E; lia|].
  rewrite Hfetch, Herr.
  destruct Hno as [Hf | Hf]; rewrite Hf; [reflexivity|].
  destruct (truthy error); reflexivity.
Qed.

(** X17: whatever the first answer is, the call ends after it: one request
    is made, none is repeated, whatever the retry count. *)
Lemma retry_makes_one_request (method query : jsstring) (data : jsval)
  (isBatch : option bool) (x : exchange) (net : list exchange)
  (out : list log_entry) :
  0 <= OBJECT_REFERENCE_RETRIES cfg ->
  exists o,
    doFetchWithRetry cfg rt method query data isBatch
                     {| console := out; network := x :: net |}
    = Some (o, {| console :=
                    out ++ snd (doFetch cfg rt method query data isBatch x);
                  network := net |}).
Proof.
  intros HR. unfold doFetchWithRetry. simpl.
  destruct (OBJECT_REFERENCE_RETRIES cfg + 1 =? 0) eqn:E;
    [apply Z.eqb_eq in E; lia|].
  destruct (doFetch cfg rt method query data isBatch x) as [[r|e] printed];
    [|eexists; reflexivity].
  simpl snd.
  destruct (get_prop (content r) (js "error")) as [error|e];
    [|eexists; reflexivity].
  destruct (truthy error); [|eexists; reflexivity].
  destruct (isObjectReferenceError error) as [[|]|e]; try (eexists; reflexivity).
  rewrite Z.sub_diag, retry_loop_done. eexists. reflexivity.
Qed.

(** C5, what the code does: [doDelete] reads [content.error] on the promise
    that [doFetch] returned, which throws a [TypeError] whatever the
    server answers. *)
Theorem doDelete_throws (query : jsstring) (x : exchange)
  (net : list exchange) (out : list log_entry) :
  doDelete cfg rt query {| console := out; network := x :: net |}
  = Some (Throw TypeError,
          {| console :=
               out ++ snd (doFetch cfg rt (js "DELETE") query VUndefined None x);
             network := net |}).
Proof.
  unfold doDelete, fetch_once. simpl.
  destruct (doFetch cfg rt (js "DELETE") query VUndefined None x).
  reflexivity.
Qed.

(** X18: a GET answered 200 with a content without error returns what
    [processGetResponse] makes of the content, and prints nothing. *)
Lemma doGet_ok (query : jsstring) (x : exchange) (net : list exchange)
  (out : list log_entry) (token text : jsstring) (c error : jsval) :
  0 <= OBJECT_REFERENCE_RETRIES cfg ->
  acquireToken x = Some token ->
  (forall req, fetch x req = Reply 200 text) ->
  JSON_text rt text = Some c ->
  get_prop c (js "error") = Ret error ->
  truthy error = false ->
  doGet cfg rt query {| console := out; network := x :: net |}
  = Some (processGetResponse c, {| console := out; network := net |}).
Proof.
  intros HR Htok Hfetch Hjson Herr Hf. unfold doGet.
  rewrite (retry_returns_first_answer _ _ _ _ x net out []
             {| status := 200; content := c |} error HR
             (doFetch_json cfg rt _ _ _ _ _ _ _ _ Htok Hfetch Hjson) Herr
             (or_introl Hf)).
  simpl. rewrite Herr, Hf, app_nil_r. reflexivity.
Qed.

(** X19: a GET whose content carries an error with a message (other than
    the transient fault) that converts to a string returns [false],
    whatever the status, and prints one line with the status and the
    message. *)
Lemma doGet_failure_logged (query : jsstring) (x : exchange)
  (net : list exchange) (out : list log_entry) (token text : jsstring)
  (st : Z) (c error message : jsval) :
  0 <= OBJECT_REFERENCE_RETRIES cfg ->
  acquireToken x = Some token ->
  (forall req, fetch x req = Reply st text) ->
  JSON_text rt text = Some c ->
  get_prop c (js "error") = Ret error ->
  truthy error = true ->
  get_prop error (js "message") = Ret message ->
  is_string message OBJECT_REFERENCE_ERROR = false ->
  printable message = true ->
  doGet cfg rt query {| console := out; network := x :: net |}
  = Some (Ret (VBool false),
          {| console :=
               out ++ [LogLine [LText (js "GET request failed with status: ");
                                LStatus (Some st); LText (js ", error: ");
                                LValue message]];
             network := net |}).
Proof.
  intros HR Htok Hfetch Hjson Herr Ht Hmsg Hother Hprint. unfold doGet.
  assert (Hnot : isObjectReferenceError error = Ret false).
  { unfold isObjectReferenceError. rewrite Hmsg. simpl. rewrite Hother.
    rewrite andb_false_r. reflexivity. }
  rewrite (retry_returns_first_answer _ _ _ _ x net out []
             {| status := st; content := c |} error HR
             (doFetch_json cfg rt _ _ _ _ _ _ _ _ Htok Hfetch Hjson) Herr
             (or_intror Hnot)).
  simpl. rewrite Herr, Ht. simpl. unfold log_failure. simpl.
  rewrite Herr. simpl. rewrite Hmsg. simpl. rewrite Hprint, app_nil_r.
  reflexivity.
Qed.

(** C6, what the code does: a GET answered with a status other than 200
    (404, say) and a JSON object without [error] does not return [false];
    building the log line reads [message] on the missing error and throws a
    [TypeError]. *)
Theorem doGet_failure_without_error_throws (query : jsstring) (x : exchange)
  (net : list exchange) (out : list log_entry) (token text : jsstring)
  (st : Z) (props : list (jsstring * jsval)) :
  0 <= OBJECT_REFERENCE_RETRIES cfg ->
  acquireToken x = Some token ->
  (forall req, fetch x req = Reply st text) ->
  JSON_text rt text = Some (VObj props) ->
  lookup (js "error") props = None ->
  st <> 200 ->
  doGet cfg rt query {| console := out; network := x :: net |}
  = Some (Throw TypeError, {| console := out; network := net |}).
Proof.
  intros HR Htok Hfetch Hjson Hnone Hst. unfold doGet.
  assert (Herr : get_prop (VObj props) (js "error") = Ret VUndefined)
    by (unfold get_prop; simpl own_props; rewrite Hnone; reflexivity).
  rewrite (retry_returns_first_answer _ _ _ _ x net out []
             {| status := st; content := VObj props |} VUndefined HR
             (doFetch_json cfg rt _ _ _ _ _ _ _ _ Htok Hfetch Hjson) Herr
             (or_introl eq_refl)).
  simpl res_content. rewrite Herr. unfold status_is. simpl.
  apply Z.eqb_neq in Hst. rewrite Hst. unfold log_failure. simpl res_content.
  rewrite Herr, app_nil_r. reflexivity.
Qed.

(** X20: a PATCH answered with a status from 200 to 299 and a content
    without error returns the content as it is, and prints nothing. *)
Lemma doPatch_ok (query : jsstring) (body : jsval) (x : exchange)
  (net : list exchange) (out : list log_entry) (token text : jsstring)
  (st : Z) (c error : jsval) :
  acquireToken x = Some token ->
  (forall req, fetch x req = Reply st text) ->
  JSON_text rt text = Some c ->
  get_prop c (js "error") = Ret error ->
  truthy error = false ->
  200 <= st < 300 ->
  doPatch cfg rt query body {| console := out; network := x :: net |}
  = Some (Ret c, {| console := out; network := net |}).
Proof.
  intros Htok Hfetch Hjson Herr Hf Hst. unfold doPatch, fetch_once. simpl.
  rewrite (doFetch_json cfg rt _ _ _ _ _ _ _ _ Htok Hfetch Hjson).
  simpl. rewrite Herr, Hf. unfold status_within. simpl.
  replace (200 <=? st) with true by (symmetry; apply Z.leb_le; lia).
  replace (st <? 300) with true by (symmetry; apply Z.ltb_lt; lia).
  simpl. rewrite app_nil_r. reflexivity.
Qed.

End Verbs.

(** ** Witnesses *)


(** A 404 whose body is JSON without [error]. *)
Lemma doGet_failure_without_error_throws_witness :
  doGet sample_cfg sample_rt (js "contact(1)")
        {| console := []; network := [answers 404 not_found_text] |}
  = Some (Throw TypeError, {| console := []; network := [] |}).
Proof.
  apply (doGet_failure_without_error_throws sample_cfg sample_rt _ _ _ _
           (js "token") not_found_text 404
           [(js "Message", VStr (js "No HTTP resource was found"))]).
  - simpl. lia.
  - reflexivity.
  - intros req. reflexivity.
  - vm_compute. reflexivity.
  - reflexivity.
  - lia.
Defined.

(** A collection without [@odata.context]. *)
Lemma processGetResponse_without_context_witness :
  processGetResponse (VObj [(js "value", VArr [VObj sample_entity])])
  = Throw TypeError.
Proof.
  apply processGetResponse_without_context. reflexivity.
Defined.

(** The documented response format, cut into the seven pieces. *)
Lemma extractBatchData_inner_json_witness :
  extractBatchData (batch_response contacts_text) = Some contacts_text.
Proof.
  change (batch_response contacts_text)
    with ((js "--batchresponse_0f3a-77" ++ [13%N])
          ++ (LF ++ js "Content-Type: application/http" ++ CRLF
                 ++ js "Content-Transfer-Encoding: binary" ++ CRLF ++ CRLF)
          ++ (js "HTTP/1.1 200 OK" ++ [13%N])
          ++ (LF ++ js "Content-Type: application/json; odata.metadata=minimal"
                 ++ CRLF ++ js "OData-Version: 4.0" ++ CRLF ++ CRLF)
          ++ contacts_text ++ CRLF ++ js "--batchresponse_0f3a-77--").
  apply extractBatchData_inner_json; vm_compute; reflexivity.
Defined.

(** The reply of the witness lacks the closing boundary. *)
Lemma unmatched_batch_loses_text_witness :
  doFetch sample_cfg sample_rt (js "POST") (js "$batch")
          (VStr (makeBatchBody (CRM_URL sample_cfg) (js "contacts") (js "<fetch/>")))
          (Some true) (answers 200 truncated_batch)
  = (Ret {| status := 200;
            content := VObj [(js "error",
                              VObj [(js "message", VUndefined)])] |}, []).
Proof.
  apply (unmatched_batch_loses_text sample_cfg sample_rt _ _ _ _ (js "token")
           truncated_batch 200).
  - reflexivity.
  - intros req. reflexivity.
  - vm_compute. reflexivity.
  - vm_compute. reflexivity.
Defined.

(** ** Sample runs *)

(** The entity of the specification's example: the annotated key is
    renamed, the context key is kept. *)
Example entity_example :
  processGetResponse
    (VObj [(js "@odata.context", VStr (js "https://crm.example/$metadata#contacts/$entity"));
           (js "name@OData.Community.Display.V1.FormattedValue",
            VStr (js "Alice"))])
  = Ret (VObj [(js "@odata.context", VStr (js "https://crm.example/$metadata#contacts/$entity"));
               (js "name_formatted", VStr (js "Alice"))]).
Proof. vm_compute. reflexivity. Qed.

(** A GET answered 200 with a collection. *)
Example doGet_example :
  doGet sample_cfg sample_rt (js "contacts")
        {| console := []; network := [answers 200 contacts_text] |}
  = Some (Ret (VObj [(js "@odata.context",
                      VStr (js "https://crm.example/api/data/v9.1/$metadata#contacts"));
                     (js "value",
                      VArr [VObj [(js "contactid", VStr (js "c1"));
                                  (js "statuscode_formatted", VStr (js "Active"));
                                  (js "statuscode", VNum 1)]])]),
          {| console := []; network := [] |}).
Proof. vm_compute. reflexivity. Qed.

(** A GET answered 404 with an error body: [false], and one line on the
    console. *)
Example doGet_not_found_example :
  doGet sample_cfg sample_rt (js "contacts(1)")
        {| console := [];
           network := [answers 404 (jq "{'error':{'message':'Not found'}}")] |}
  = Some (Ret (VBool false),
          {| console :=
               [LogLine [LText (js "GET request failed with status: ");
                         LStatus (Some 404); LText (js ", error: ");
                         LValue (VStr (js "Not found"))]];
             network := [] |}).
Proof. vm_compute. reflexivity. Qed.

(** A PATCH answered 204 has an empty body, which is not JSON: the content
    is an error and the call returns [false]. *)
Example doPatch_no_content_example :
  doPatch sample_cfg sample_rt (js "contacts(1)")
          (VObj [(js "firstname", VStr (js "Alice"))])
          {| console := []; network := [answers 204 []] |}
  = Some (Ret (VBool false),
          {| console :=
               [LogLine [LText (js "PATCH request failed with status: ");
                         LStatus (Some 204); LText (js ", error: ");
                         LValue (VStr [])]];
             network := [] |}).
Proof. vm_compute. reflexivity. Qed.

(** A batch POST answered in the documented format. *)
Example doBatchPost_example :
  doBatchPost sample_cfg sample_rt (js "contacts") (js "<fetch/>")
              {| console := [];
                 network := [answers 200 (batch_response (jq "{'value':[]}"))] |}
  = Some (Ret (VObj [(js "value", VArr [])]),
          {| console := []; network := [] |}).
Proof. vm_compute. reflexivity. Qed.

(** A batch POST whose answer lacks the closing boundary: the message that
    is printed is [undefined]. *)
Example doBatchPost_truncated_example :
  doBatchPost sample_cfg sample_rt (js "contacts") (js "<fetch/>")
              {| console := []; network := [answers 200 truncated_batch] |}
  = Some (Ret (VBool false),
          {| console :=
               [LogLine [LText (js "POST request failed with status: ");
                         LStatus (Some 200); LText (js ", error: ");
                         LValue VUndefined]];
             network := [] |}).
Proof. vm_compute. reflexivity. Qed.

(** A JSON text of several lines is not captured: [.] stops at a line
    break. *)
Example multiline_json_not_extracted :
  extractBatchData
    (batch_response (js "{" ++ LF ++ jq "'value':[]" ++ LF ++ js "}"))
  = None.
Proof. vm_compute. reflexivity. Qed.

(** * Further properties *)

(** ** Transport and decoding *)

Section Transport.

Variable cfg : config.
Variable rt : runtime.

Lemma doFetch_transport_failure (method query : jsstring) (data : jsval)
  (isBatch : option bool) (x : exchange) :
  transport_fails x ->
  doFetch cfg rt method query data isBatch x
  = (Throw (generic_failure method), [LogError Rejection]).
Proof.
  intros [Htok | Hnet]; unfold doFetch, getHeaders.
  - rewrite Htok. reflexivity.
  - destruct (acquireToken x); [rewrite Hnet|]; reflexivity.
Qed.

(** X1: once the server has answered, [doFetch] returns whatever the body
    is (JSON or not, batch or not): the status of the answer is handed on
    unchanged and nothing is printed. *)
Theorem doFetch_reply_returns (method query : jsstring) (data : jsval)
  (isBatch : option bool) (x : exchange) (token text : jsstring) (st : Z) :
  acquireToken x = Some token ->
  (forall req, fetch x req = Reply st text) ->
  exists c,
    doFetch cfg rt method query data isBatch x
    = (Ret {| status := st; content := c |}, []).
Proof.
  intros Htok Hfetch. unfold doFetch, getHeaders. rewrite Htok, Hfetch.
  match goal with
  | |- context [JSON_parse rt ?t ?r] => destruct (JSON_parse rt t r)
  end; eexists; reflexivity.
Qed.

(** X2: when the token provider or the network fails, GET, POST and PATCH
    do not return [false]: each throws the generic failure naming its
    method, after the cause has been printed. *)
Theorem verbs_throw_on_transport_failure (query : jsstring) (body : jsval)
  (isBatch : option bool) (x : exchange) (net : list exchange)
  (out : list log_entry) :
  0 <= OBJECT_REFERENCE_RETRIES cfg ->
  transport_fails x ->
  let w := {| console := out; network := x :: net |} in
  let w' := {| console := out ++ [LogError Rejection]; network := net |} in
  doGet cfg rt query w = Some (Throw (generic_failure (js "GET")), w') /\
  doPost cfg rt query body isBatch w
  = Some (Throw (generic_failure (js "POST")), w') /\
  doPatch cfg rt query body w = Some (Throw (generic_failure (js "PATCH")), w').
Proof.
  intros HR Hfail w w'. subst w w'.
  assert (Hretry : forall method data b,
             doFetchWithRetry cfg rt method query data b
                              {| console := out; network := x :: net |}
             = Some (Throw (generic_failure method),
                     {| console := out ++ [LogError Rejection];
                        network := net |})).
  { intros method data b. unfold doFetchWithRetry. simpl.
    destruct (OBJECT_REFERENCE_RETRIES cfg + 1 =? 0) eqn:E;
      [apply Z.eqb_eq in E; lia|].
    rewrite (doFetch_transport_failure _ _ _ _ _ Hfail). reflexivity. }
  split; [|split].
  - unfold doGet. rewrite Hretry. reflexivity.
  - unfold doPost. rewrite Hretry. reflexivity.
  - unfold doPatch, fetch_once. simpl.
    rewrite (doFetch_transport_failure _ _ _ _ _ Hfail). reflexivity.
Qed.

(** X3: a GET answered with a body that is not JSON (and is not the text of
    the transient fault) returns [false], whatever the status, even 200;
    the line printed carries the status and the raw body. *)
Theorem doGet_plain_text_reply (query : jsstring) (x : exchange)
  (net : list exchange) (out : list log_entry) (token text : jsstring)
  (st : Z) :
  0 <= OBJECT_REFERENCE_RETRIES cfg ->
  acquireToken x = Some token ->
  (forall req, fetch x req = Reply st text) ->
  JSON_text rt text = None ->
  text <> OBJECT_REFERENCE_ERROR ->
  doGet cfg rt query {| console := out; network := x :: net |}
  = Some (Ret (VBool false),
          {| console :=
               out ++ [LogLine [LText (js "GET request failed with status: ");
                                LStatus (Some st); LText (js ", error: ");
                                LValue (VStr text)]];
             network := net |}).
Proof.
  intros HR Htok Hfetch Hjson Hother. unfold doGet.
  assert (Hnot : isObjectReferenceError (VObj [(js "message", VStr text)])
                 = Ret false).
  { unfold isObjectReferenceError.
    change (get_prop (VObj [(js "message", VStr text)]) (js "message"))
      with (Ret (VStr text)).
    cbn [bind is_string]. apply eqb_neq in Hother. rewrite Hother.
    rewrite andb_false_r. reflexivity. }
  rewrite (retry_returns_first_answer cfg rt _ _ _ _ x net out []
             {| status := st; content := error_content (Some text) |}
             (VObj [(js "message", VStr text)]) HR
             (doFetch_text cfg rt _ _ _ _ _ _ _ Htok Hfetch Hjson) eq_refl
             (or_intror Hnot)).
  rewrite app_nil_r. reflexivity.
Qed.

(** X4: a GET never carries a body, and no method carries a body for a
    falsy payload: the payload has no influence on such a call. *)
Theorem request_body_ignored (method query : jsstring) (data data' : jsval)
  (isBatch : option bool) (x : exchange) :
  eqb method (js "GET") = true \/ (truthy data = false /\ truthy data' = false) ->
  doFetch cfg rt method query data isBatch x
  = doFetch cfg rt method query data' isBatch x.
Proof.
  assert (Hdef : forall d, truthy d = false ->
                           truthy match d with VUndefined => VNull | _ => d end
                           = false)
    by (intros [] H; try reflexivity; exact H).
  intros [Hget | [Hd Hd']]; unfold doFetch.
  - rewrite Hget. reflexivity.
  - rewrite (Hdef _ Hd), (Hdef _ Hd'), !andb_false_r. reflexivity.
Qed.

(** The result of [doFetch] depends on the server through its answer to
    one request only; for a batch POST that request is [batch_request]. *)
Lemma doFetch_batch_request (query fetchXML : jsstring) (x x' : exchange)
  (token : jsstring) :
  acquireToken x = Some token ->
  acquireToken x' = Some token ->
  fetch x (batch_request cfg token query fetchXML)
  = fetch x' (batch_request cfg token query fetchXML) ->
  doFetch cfg rt (js "POST") (js "$batch")
          (VStr (makeBatchBody (CRM_URL cfg) query fetchXML)) (Some true) x
  = doFetch cfg rt (js "POST") (js "$batch")
            (VStr (makeBatchBody (CRM_URL cfg) query fetchXML)) (Some true) x'.
Proof.
  intros Htok Htok' Hsame. unfold doFetch, getHeaders.
  rewrite Htok, Htok'.
  match goal with
  | |- context [fetch x ?r] =>
      change r with (batch_request cfg token query fetchXML)
  end.
  rewrite Hsame. reflexivity.
Qed.

(** X5: a batch POST makes one request: a POST to the base URL followed by
    [$batch], with the headers of [getHeaders] (content type
    [multipart/mixed;boundary=batch], the bearer token) and, as body, the
    text of [makeBatchBody] as it is.  Two servers that answer this request
    alike give the same result. *)
Theorem doBatchPost_request (query fetchXML : jsstring) (x x' : exchange)
  (net : list exchange) (out : list log_entry) (token : jsstring) :
  0 <= OBJECT_REFERENCE_RETRIES cfg ->
  acquireToken x = Some token ->
  acquireToken x' = Some token ->
  fetch x (batch_request cfg token query fetchXML)
  = fetch x' (batch_request cfg token query fetchXML) ->
  doBatchPost cfg rt query fetchXML {| console := out; network := x :: net |}
  = doBatchPost cfg rt query fetchXML
                {| console := out; network := x' :: net |}.
Proof.
  intros HR Htok Htok' Hsame. unfold doBatchPost, doPost, doFetchWithRetry.
  cbn [network console retry_loop].
  destruct (OBJECT_REFERENCE_RETRIES cfg + 1 =? 0) eqn:E;
    [apply Z.eqb_eq in E; lia|].
  rewrite (doFetch_batch_request query fetchXML x x' token Htok Htok' Hsame).
  reflexivity.
Qed.

(** X6: the transient fault is recognised by exact equality: an error is
    the fault exactly when its [message] is the string of the fault,
    character for character. *)
Theorem isObjectReferenceError_exact (error : jsval) :
  isObjectReferenceError error = Ret true <->
  get_prop error (js "message") = Ret (VStr OBJECT_REFERENCE_ERROR).
Proof.
  split; [|apply fault_recognised].
  unfold isObjectReferenceError.
  destruct (get_prop error (js "message")) as [message|e]; [|discriminate].
  cbn [bind].
  destruct (truthy message && is_string message OBJECT_REFERENCE_ERROR) eqn:E;
    [|discriminate].
  intros _. apply andb_true_iff in E as [_ E].
  destruct message; try discriminate. cbn in E. apply eqb_eq in E.
  subst. reflexivity.
Qed.

End Transport.

(** ** Entities *)

Section Entities.

Lemma lookup_Some_In (k : jsstring) (v : jsval)
  (props : list (jsstring * jsval)) :
  lookup k props = Some v -> In k (map fst props).
Proof.
  induction props as [|[k0 v0] props IH]; simpl; [discriminate|].
  destruct (eqb k k0) eqn:E.
  - apply eqb_eq in E. subst. intros _. left. reflexivity.
  - intros H. right. exact (IH H).
Qed.

Lemma keys_replace (k : jsstring) (v : jsval) (props : list (jsstring * jsval)) :
  map fst (replace_prop k v props) = map fst props.
Proof.
  induction props as [|[k0 v0] props IH]; simpl; [reflexivity|].
  destruct (eqb k k0); simpl; [reflexivity | rewrite IH; reflexivity].
Qed.

Lemma keys_insert_index (n : N) (k : jsstring) (v : jsval)
  (props : list (jsstring * jsval)) :
  exists l1 l2, map fst props = l1 ++ l2 /\
                map fst (insert_index n k v props) = l1 ++ k :: l2.
Proof.
  induction props as [|[k0 v0] props IH]; simpl.
  - exists [], []. split; reflexivity.
  - assert (Hhere : exists l1 l2,
               k0 :: map fst props = l1 ++ l2 /\
               map fst ((k, v) :: (k0, v0) :: props) = l1 ++ k :: l2)
      by (exists [], (k0 :: map fst props); split; reflexivity).
    destruct (array_index k0) as [m|]; [destruct (m <? n)%N|]; try exact Hhere.
    destruct IH as (l1 & l2 & E1 & E2).
    exists (k0 :: l1), l2. simpl. rewrite E1, E2. split; reflexivity.
Qed.

(** The keys after an assignment: the key assigned joins the others, once. *)
Lemma keys_set_own (k : jsstring) (v : jsval) (props : list (jsstring * jsval)) :
  (In k (map fst props) /\ map fst (set_own k v props) = map fst props) \/
  (~ In k (map fst props) /\
   exists l1 l2, map fst props = l1 ++ l2 /\
                 map fst (set_own k v props) = l1 ++ k :: l2).
Proof.
  unfold set_own. destruct (lookup k props) as [v0|] eqn:Hk.
  - left. split; [exact (lookup_Some_In _ _ _ Hk) | apply keys_replace].
  - right. split; [exact (lookup_None_In _ _ Hk)|].
    destruct (array_index k) as [n|]; [apply keys_insert_index|].
    exists (map fst props), []. rewrite app_nil_r, map_app. split; reflexivity.
Qed.

Lemma In_keys_set_own (k n : jsstring) (v : jsval)
  (props : list (jsstring * jsval)) :
  In n (map fst (set_own k v props)) <-> n = k \/ In n (map fst props).
Proof.
  destruct (keys_set_own k v props) as [[Hin ->] | [_ (l1 & l2 & -> & ->)]].
  - split; [intros H; right; exact H | intros [-> | H]; assumption].
  - rewrite !in_app_iff. simpl. intuition congruence.
Qed.

Lemma NoDup_keys_set_own (k : jsstring) (v : jsval)
  (props : list (jsstring * jsval)) :
  NoDup (map fst props) -> NoDup (map fst (set_own k v props)).
Proof.
  intros Hnd.
  destruct (keys_set_own k v props) as [[_ ->] | [Hnew (l1 & l2 & E1 & ->)]];
    [exact Hnd|].
  rewrite E1 in Hnd, Hnew.
  apply (NoDup_Add (Add_app _ l1 l2)). split; assumption.
Qed.

Lemma length_set_own (k : jsstring) (v : jsval)
  (props : list (jsstring * jsval)) :
  (List.length (set_own k v props) <= S (List.length props))%nat.
Proof.
  rewrite <- (length_map fst), <- (length_map fst props).
  destruct (keys_set_own k v props) as [[_ ->] | [_ (l1 & l2 & -> & ->)]];
    [lia|].
  rewrite !length_app. simpl. lia.
Qed.

(** The keys after an assignment: a name other than [__proto__] joins the
    others, once. *)
Lemma In_keys_assign_own (k n : jsstring) (v : jsval)
  (props : list (jsstring * jsval)) :
  In n (map fst (assign_own k v props)) <->
  (k <> js "__proto__" /\ n = k) \/ In n (map fst props).
Proof.
  unfold assign_own. destruct (eqb k (js "__proto__")) eqn:E.
  - apply eqb_eq in E. split; [intros H; right; exact H|].
    intros [[Hk _] | H]; [contradiction | exact H].
  - apply eqb_neq in E. rewrite In_keys_set_own. tauto.
Qed.

Lemma NoDup_keys_assign_own (k : jsstring) (v : jsval)
  (props : list (jsstring * jsval)) :
  NoDup (map fst props) -> NoDup (map fst (assign_own k v props)).
Proof.
  unfold assign_own. destruct (eqb k (js "__proto__")); [tauto|].
  apply NoDup_keys_set_own.
Qed.

Lemma length_assign_own (k : jsstring) (v : jsval)
  (props : list (jsstring * jsval)) :
  (List.length (assign_own k v props) <= S (List.length props))%nat.
Proof.
  unfold assign_own. destruct (eqb k (js "__proto__")); [lia|].
  apply length_set_own.
Qed.

(** The object built from the keys [keys], starting from [acc]. *)
Lemma build_facts (data : jsval) (keys : list jsstring)
  (acc : list (jsstring * jsval)) :
  let out :=
    fold_left (fun normalizedObject propertyName =>
                 assign_own (getNormalizedPropertyName propertyName)
                            (read_own data propertyName) normalizedObject)
              keys acc in
  (NoDup (map fst acc) -> NoDup (map fst out)) /\
  (forall n, In n (map fst out) <->
             In n (map fst acc) \/
             (n <> js "__proto__" /\
              exists k, In k keys /\ getNormalizedPropertyName k = n)) /\
  (List.length out <= List.length acc + List.length keys)%nat.
Proof.
  revert acc; induction keys as [|k keys IH]; intros acc; cbn [fold_left].
  - split; [tauto|]. split; [|lia].
    intros n. split; [tauto | intros [H | (_ & k & [] & _)]; exact H].
  - specialize (IH (assign_own (getNormalizedPropertyName k)
                               (read_own data k) acc)).
    cbv zeta in IH. destruct IH as (Hnd & Hin & Hlen).
    split; [|split].
    + intros H. apply Hnd, NoDup_keys_assign_own, H.
    + intros n. rewrite Hin, In_keys_assign_own. split.
      * intros [[[Hp ->] | H] | (Hp & k' & Hk' & E)].
        -- right. split; [exact Hp|]. exists k.
           split; [left; reflexivity | reflexivity].
        -- left. exact H.
        -- right. split; [exact Hp|]. exists k'.
           split; [right; exact Hk' | exact E].
      * intros [H | (Hp & k' & [<- | Hk'] & E)].
        -- left. right. exact H.
        -- left. left. split; [rewrite E; exact Hp | symmetry; exact E].
        -- right. split; [exact Hp|]. exists k'. split; assumption.
    + pose proof (length_assign_own (getNormalizedPropertyName k)
                                    (read_own data k) acc).
      cbn [List.length]. lia.
Qed.

Lemma parsePrefixedEntity_cases (data : jsval) :
  parsePrefixedEntity data
  = if nullish data then Throw TypeError else Ret (entity_of data).
Proof. destruct data; reflexivity. Qed.

(** X7: the object [parsePrefixedEntity] returns has pairwise distinct
    keys; its keys are exactly the normalised names of the keys of the
    input other than the name [__proto__], which the assignment never
    creates; and it has no more properties than the input.  The function
    throws only on [null] or [undefined]. *)
Theorem parsePrefixedEntity_keys (data : jsval) :
  nullish data = false ->
  exists out,
    parsePrefixedEntity data = Ret (VObj out) /\
    NoDup (map fst out) /\
    (forall n, In n (map fst out) <->
               n <> js "__proto__" /\
               exists k, In k (map fst (own_props data)) /\
                         getNormalizedPropertyName k = n) /\
    (List.length out <= List.length (own_props data))%nat.
Proof.
  intros Hnn. exists (normalized data (map fst (own_props data))).
  rewrite parsePrefixedEntity_cases, Hnn.
  destruct (build_facts data (map fst (own_props data)) [])
    as (Hnd & Hin & Hlen).
  split; [reflexivity|]. split; [apply Hnd; constructor|].
  split.
  - intros n. unfold normalized. rewrite Hin. simpl. tauto.
  - unfold normalized. rewrite length_map in Hlen. exact Hlen.
Qed.

(** X8: when several properties of the input take the same normalised
    name, the last of them in key order gives the value: a property is
    found under its normalised name (any name but [__proto__]) whenever no
    later property takes that name. *)
Theorem parsePrefixedEntity_last_wins (data : jsval)
  (before after : list jsstring) (k : jsstring) :
  nullish data = false ->
  map fst (own_props data) = before ++ k :: after ->
  getNormalizedPropertyName k <> js "__proto__" ->
  (forall k', In k' after ->
              getNormalizedPropertyName k' <> getNormalizedPropertyName k) ->
  exists out,
    parsePrefixedEntity data = Ret (VObj out) /\
    lookup (getNormalizedPropertyName k) out = Some (read_own data k).
Proof.
  intros Hnn Hkeys Hproto Hafter.
  exists (normalized data (map fst (own_props data))).
  rewrite parsePrefixedEntity_cases, Hnn. split; [reflexivity|].
  rewrite Hkeys. apply normalized_last; assumption.
Qed.

Lemma map_parsePrefixedEntity (elems : list jsval) :
  map_outcome parsePrefixedEntity elems
  = if existsb nullish elems then Throw TypeError
    else Ret (map entity_of elems).
Proof.
  induction elems as [|e elems IH]; [reflexivity|].
  cbn [map_outcome existsb map]. rewrite parsePrefixedEntity_cases.
  destruct (nullish e); [reflexivity|]. cbn [bind orb]. rewrite IH.
  destruct (existsb nullish elems); reflexivity.
Qed.

(** X9: on a collection (a context that names no single entity, and a
    [value] array) every element is normalised in place: the result has the
    keys of the response in the same order and an array of the same length
    under [value]; a single [null] element makes the whole call throw a
    [TypeError]. *)
Theorem processGetResponse_collection_elements
  (props : list (jsstring * jsval)) (context : jsstring)
  (elems : list jsval) :
  lookup (js "@odata.context") props = Some (VStr context) ->
  includes context (js "/$entity") = false ->
  lookup (js "value") props = Some (VArr elems) ->
  processGetResponse (VObj props)
  = (if existsb nullish elems then Throw TypeError
     else Ret (VObj (replace_prop (js "value") (VArr (map entity_of elems))
                                  props))) /\
  map fst (replace_prop (js "value") (VArr (map entity_of elems)) props)
  = map fst props /\
  List.length (map entity_of elems) = List.length elems.
Proof.
  intros Hc Hi Hv. split; [|split; [apply keys_replace | apply length_map]].
  rewrite (processGetResponse_collection props context elems Hc Hi Hv).
  rewrite map_parsePrefixedEntity.
  destruct (existsb nullish elems); reflexivity.
Qed.

(** X10: when [value] is not an array, a truthy one (the text of a single
    property, a number, an object) makes the call throw a [TypeError], and
    a falsy one leaves the response as it is. *)
Theorem processGetResponse_value_not_array
  (props : list (jsstring * jsval)) (context : jsstring) (v : jsval) :
  lookup (js "@odata.context") props = Some (VStr context) ->
  includes context (js "/$entity") = false ->
  lookup (js "value") props = Some v ->
  (forall elems, v <> VArr elems) ->
  processGetResponse (VObj props)
  = if truthy v then Throw TypeError else Ret (VObj props).
Proof.
  intros Hc Hi Hv Hna. unfold processGetResponse, get_prop. simpl own_props.
  rewrite Hc. simpl. rewrite Hi, Hv. simpl.
  destruct (truthy v) eqn:Ht; [|reflexivity].
  destruct v; try reflexivity. exfalso. exact (Hna _ eq_refl).
Qed.

End Entities.

(** ** Normalising twice *)

Section Renormalising.

Lemma prefixb_app (m t : jsstring) : prefixb m (m ++ t) = true.
Proof.
  induction m as [|c m IH]; [reflexivity|]. simpl. rewrite N.eqb_refl. exact IH.
Qed.

Lemma prefixb_nil_r (m : jsstring) : prefixb m [] = true -> m = [].
Proof. destruct m; [reflexivity | discriminate]. Qed.

(** An occurrence anywhere is found by the search. *)
Lemma indexOf_from_occurs (m s : jsstring) (n : nat) (i : Z) :
  0 <= i -> occurs_at m s n -> 0 <= indexOf_from s m i.
Proof.
  unfold occurs_at. revert n i; induction s as [|c s IH]; intros n i Hi H.
  - rewrite skipn_nil in H. simpl. rewrite H. exact Hi.
  - simpl. destruct (prefixb m (c :: s)) eqn:E; [exact Hi|].
    destruct n as [|n]; [simpl in H; congruence|].
    apply (IH n); [lia | exact H].
Qed.

Lemma occurs_includes (m s : jsstring) (n : nat) :
  occurs_at m s n -> includes s m = true.
Proof.
  intros H. unfold includes, indexOf.
  pose proof (indexOf_from_occurs m s n 0 (Z.le_refl 0) H).
  apply negb_true_iff, Z.eqb_neq. lia.
Qed.

(** No occurrence before the position the search answers. *)
Lemma indexOf_from_first (m s : jsstring) (i : Z) (n : nat) :
  0 <= i -> indexOf_from s m i = i + Z.of_nat n ->
  forall j, (j < n)%nat -> ~ occurs_at m s j.
Proof.
  unfold occurs_at. revert i n; induction s as [|c s IH]; intros i n Hi H j Hj.
  - simpl in H. destruct (prefixb m []); lia.
  - simpl in H. destruct (prefixb m (c :: s)) eqn:E; [lia|].
    destruct n as [|n]; [lia|].
    destruct j as [|j]; [simpl; congruence|]. simpl.
    apply (IH (i + 1) n); [lia | rewrite H; lia | lia].
Qed.

(** An occurrence in [u ++ v] lies within [u], or runs over the first
    character of [v], or starts in [v]. *)
Lemma occurs_app (m u v : jsstring) (n : nat) :
  m <> [] -> occurs_at m (u ++ v) n ->
  occurs_at m u n \/
  (exists c, hd_error v = Some c /\ In c m) \/
  (exists c, hd_error m = Some c /\ In c v).
Proof.
  unfold occurs_at. intros Hm H.
  destruct (Nat.le_gt_cases n (List.length u)) as [Hn | Hn].
  - rewrite skipn_app_within in H by exact Hn.
    apply prefixb_split in H as [t Ht]. symmetry in Ht.
    apply app_eq_app in Ht as [l [[-> ->] | [-> ->]]].
    + destruct l as [|c l].
      * left. rewrite app_nil_r. rewrite <- (app_nil_r (skipn n u)) at 2.
        apply prefixb_app.
      * right. left. exists c. split; [reflexivity|].
        apply in_or_app. right. left. reflexivity.
    + left. apply prefixb_app.
  - right. right. rewrite skipn_app, (skipn_all2 u) in H by lia. simpl in H.
    apply prefixb_split in H as [t Ht].
    destruct m as [|c m]; [contradiction|].
    exists c. split; [reflexivity|].
    apply (skipn_In c (n - List.length u)). rewrite Ht. left. reflexivity.
Qed.

Lemma occurs_prefix (m u r : jsstring) (n : nat) :
  occurs_at m u n -> (n <= List.length u)%nat -> occurs_at m (u ++ r) n.
Proof.
  unfold occurs_at. intros H Hn. rewrite skipn_app_within by exact Hn.
  apply prefixb_split in H as [t ->]. rewrite <- app_assoc. apply prefixb_app.
Qed.

Lemma occurs_within (m u : jsstring) (n : nat) :
  m <> [] -> occurs_at m u n -> (n <= List.length u)%nat.
Proof.
  unfold occurs_at. intros Hm H.
  destruct (Nat.le_gt_cases n (List.length u)) as [Hn | Hn]; [exact Hn|].
  rewrite skipn_all2 in H by lia. apply prefixb_nil_r in H. contradiction.
Qed.

(** No annotation contains the underscore a suffix starts with, and no
    suffix contains the at sign an annotation starts with. *)
Lemma marker_suffix_apart (a b : annotation) :
  (forall c, hd_error (suffix_of a) = Some c -> In c (marker b) -> False) /\
  (forall c, hd_error (marker b) = Some c -> In c (suffix_of a) -> False).
Proof.
  assert (Hin : forall (c : code_unit) (l : jsstring),
             In c l -> existsb (N.eqb c) l = true).
  { intros c l H. apply existsb_exists. exists c.
    split; [exact H | apply N.eqb_refl]. }
  split; intros c Hc H; apply Hin in H; destruct a, b;
    injection Hc as <-; vm_compute in H; discriminate.
Qed.

Lemma marker_not_nil (b : annotation) : marker b <> [].
Proof. destruct b; discriminate. Qed.

(** X11: for a name that carries at most one kind of annotation,
    normalising is idempotent: a second normalisation returns the
    normalised name unchanged. *)
Theorem getNormalizedPropertyName_idempotent (name : jsstring) (a : annotation) :
  (forall b, b <> a -> includes name (marker b) = false) ->
  getNormalizedPropertyName (getNormalizedPropertyName name)
  = getNormalizedPropertyName name.
Proof.
  intros Hsole.
  destruct (dominant name) as [a'|] eqn:Hd;
    [|rewrite (plain_kept _ Hd); apply (plain_kept _ Hd)].
  assert (a' = a) as ->.
  { destruct (annotation_eq_dec a' a) as [|Hne]; [assumption|].
    pose proof (dominant_included _ _ Hd) as Hin.
    rewrite (Hsole _ Hne) in Hin. discriminate. }
  destruct (Z.eq_dec (indexOf name (marker a)) 0) as [H0 | Hpos].
  - assert (Hkept : getNormalizedPropertyName name = name).
    { rewrite (dominant_renamed _ _ Hd), H0. reflexivity. }
    rewrite Hkept. exact Hkept.
  - rewrite (dominant_cut _ _ Hd Hpos). apply plain_kept.
    destruct (includes_found _ _ (dominant_included _ _ Hd))
      as (i & Hi & Hlen & Hocc).
    unfold base. rewrite Hi, (substring_prefix _ _ Hlen).
    assert (Hfree : forall b,
               includes (firstn i name ++ suffix_of a) (marker b) = false).
    { intros b. destruct (includes (firstn i name ++ suffix_of a) (marker b))
        eqn:E; [exfalso | reflexivity].
      destruct (includes_found _ _ E) as (n & _ & _ & Hn).
      destruct (occurs_app _ _ _ _ (marker_not_nil b) Hn)
        as [Hin | [(c & Hc & Hc') | (c & Hc & Hc')]];
        [| exact (proj1 (marker_suffix_apart a b) c Hc Hc')
         | exact (proj2 (marker_suffix_apart a b) c Hc Hc')].
      pose proof (occurs_within _ _ _ (marker_not_nil b) Hin) as Hle.
      assert (Hname : occurs_at (marker b) name n).
      { rewrite <- (firstn_skipn i name). apply occurs_prefix; assumption. }
      destruct (annotation_eq_dec b a) as [-> | Hne].
      - rewrite length_firstn in Hle.
        destruct (Nat.eq_dec n i) as [-> | Hni].
        + unfold occurs_at in Hin.
          rewrite skipn_all2 in Hin by (rewrite length_firstn; lia).
          apply prefixb_nil_r in Hin. exact (marker_not_nil a Hin).
        + apply (indexOf_from_first (marker a) name 0 i (Z.le_refl 0) Hi n);
            [lia | exact Hname].
      - pose proof (occurs_includes _ _ _ Hname) as Hinc.
        rewrite (Hsole _ Hne) in Hinc. discriminate. }
    pose proof (Hfree Navigation) as Hn. pose proof (Hfree Logical) as Hl.
    pose proof (Hfree Formatted) as Hf. cbn [marker] in Hn, Hl, Hf.
    unfold dominant. rewrite Hn, Hl, Hf. reflexivity.
Qed.

End Renormalising.

(** ** What the batch decoder can return *)

Section ExtractedText.

Lemma exec_found (p : list node) (s : jsstring) (r : captures * jsstring) :
  exec p s = Some r ->
  exists before s', s = before ++ s' /\ run p s' no_captures = Some r.
Proof.
  induction s as [|c s IH]; cbn [exec].
  - destruct (run p [] no_captures) eqn:E; [|discriminate].
    intros [= <-]. exists [], []. split; [reflexivity | exact E].
  - destruct (run p (c :: s) no_captures) eqn:E.
    + intros [= <-]. exists [], (c :: s). split; [reflexivity | exact E].
    + intros H. destruct (IH H) as (before & s' & -> & Hrun).
      exists (c :: before), s'. split; [reflexivity | exact Hrun].
Qed.

(** However the group and the ending match, the group holds a brace, one
    line of text and a brace. *)
Lemma run_group_shape (t : jsstring) (c : captures) (rest : jsstring) :
  run group_and_ending t no_captures = Some (c, rest) ->
  exists mid after : jsstring,
    t = (123%N :: mid ++ [125%N]) ++ after /\
    forallb (mem Dot) mid = true /\
    group1 c = Some (123%N :: mid ++ [125%N]).
Proof.
  unfold group_and_ending.
  change json_blob
    with [Single (Class [CChar 123]); Many0 Dot; Single (Class [CChar 125])].
  cbn [run app]. destruct t as [|x t1]; [discriminate|].
  destruct (mem (Class [CChar 123]) x) eqn:Hx; [|discriminate].
  apply mem_char in Hx. subst x. intros Hrun.
  destruct (backoff_found _ _ _ _ _ Hrun) as (i & Hi & Hk & _).
  destruct (skipn i t1) as [|y t2] eqn:Hskip; [discriminate|].
  destruct (mem (Class [CChar 125]) y) eqn:Hy; [|discriminate].
  apply mem_char in Hy. subst y.
  apply (run_capture_free ending) in Hk; [|reflexivity]. subst c.
  exists (firstn i t1), t2.
  assert (Ht : 123%N :: t1 = (123%N :: firstn i t1 ++ [125%N]) ++ t2).
  { cbn [app]. rewrite <- app_assoc. cbn [app]. rewrite <- Hskip.
    rewrite firstn_skipn. reflexivity. }
  split; [exact Ht|]. split; [apply span_firstn; lia|].
  unfold group1. cbn [group_start group_end no_captures].
  rewrite Ht at 1 2. rewrite firstn_drop_tail. reflexivity.
Qed.

(** X12: whatever [extractBatchData] returns is a piece of the response
    text that starts with an opening brace, ends with a closing brace and
    holds no line break in between. *)
Theorem extractBatchData_shape (text inner : jsstring) :
  extractBatchData text = Some inner ->
  exists before mid after : jsstring,
    text = before ++ inner ++ after /\
    inner = 123%N :: mid ++ [125%N] /\
    forallb (fun c => negb (is_line_terminator c)) mid = true.
Proof.
  unfold extractBatchData.
  destruct (exec batchResponseRegExp text) as [[c rest]|] eqn:E;
    [|discriminate].
  intros Hg.
  destruct (exec_found _ _ _ E) as (before & s' & -> & Hrun).
  rewrite regexp_parts in Hrun.
  destruct (run_sound preamble group_and_ending _ _ _ eq_refl Hrun)
    as (a & t & -> & _ & Hq).
  destruct (run_group_shape _ _ _ Hq) as (mid & after & -> & Hmid & Hc).
  rewrite Hc in Hg. injection Hg as <-.
  exists (before ++ a), mid, after.
  split; [rewrite <- app_assoc; reflexivity|].
  split; [reflexivity | exact Hmid].
Qed.

End ExtractedText.

(** ** Batch POST, end to end *)

Section BatchPost.

Variable cfg : config.
Variable rt : runtime.

(** X13: a batch POST answered 200 with a text from which the decoder
    extracts a JSON text without [error] returns the parsed JSON as it is:
    annotated keys are not renamed and nothing is printed. *)
Theorem doBatchPost_returns_inner_json (query fetchXML : jsstring)
  (x : exchange) (net : list exchange) (out : list log_entry)
  (token text inner : jsstring) (c error : jsval) :
  0 <= OBJECT_REFERENCE_RETRIES cfg ->
  acquireToken x = Some token ->
  (forall req, fetch x req = Reply 200 text) ->
  extractBatchData text = Some inner ->
  JSON_text rt inner = Some c ->
  get_prop c (js "error") = Ret error ->
  truthy error = false ->
  doBatchPost cfg rt query fetchXML {| console := out; network := x :: net |}
  = Some (Ret c, {| console := out; network := net |}).
Proof.
  intros HR Htok Hfetch Hin Hjson Herr Hf. unfold doBatchPost, doPost.
  rewrite (retry_returns_first_answer cfg rt _ _ _ _ x net out []
             {| status := 200; content := c |} error HR
             (doFetch_batch cfg rt _ _ _ _ _ _ _ _ _ Htok Hfetch Hin Hjson)
             Herr (or_introl Hf)).
  simpl. rewrite Herr, Hf, app_nil_r. reflexivity.
Qed.

End BatchPost.

(** ** The contact of a login *)

Section Contacts.

Variable cfg : config.
Variable rt : runtime.
Variable contactIdXML : jsstring -> jsstring.
Variable ToNumber : jsval -> float.


(** X15: when the GET has failed and returned [false], [getContactId]
    throws a [TypeError] (reading [length] on the missing [value]), not the
    [UnauthError] of an unknown contact. *)
Theorem getContactId_after_failure (email : jsstring) (w w' : world) :
  doGet cfg rt (js "contacts?fetchXml=" ++ contactIdXML email) w
  = Some (Ret (VBool false), w') ->
  getContactId cfg rt contactIdXML ToNumber email w
  = Some (Failed (Thrown TypeError), w').
Proof.
  intros Hget. unfold getContactId. rewrite Hget. reflexivity.
Qed.

End Contacts.

(** ** Verbs whose answer is no success and carries no error *)

Section SilentFailures.

Variable cfg : config.
Variable rt : runtime.

(** X16: a POST answered with a status other than 200 (201 or 204, say)
    and a JSON object without [error] does not return the content, nor
    [false]: building the log line throws a [TypeError]. *)
Theorem doPost_other_status_throws (query : jsstring) (body : jsval)
  (x : exchange) (net : list exchange) (out : list log_entry)
  (token text : jsstring) (st : Z) (props : list (jsstring * jsval)) :
  0 <= OBJECT_REFERENCE_RETRIES cfg ->
  acquireToken x = Some token ->
  (forall req, fetch x req = Reply st text) ->
  JSON_text rt text = Some (VObj props) ->
  lookup (js "error") props = None ->
  st <> 200 ->
  doPost cfg rt query body None {| console := out; network := x :: net |}
  = Some (Throw TypeError, {| console := out; network := net |}).
Proof.
  intros HR Htok Hfetch Hjson Hnone Hst. unfold doPost.
  assert (Herr : get_prop (VObj props) (js "error") = Ret VUndefined)
    by (unfold get_prop; simpl own_props; rewrite Hnone; reflexivity).
  rewrite (retry_returns_first_answer cfg rt _ _ _ _ x net out []
             {| status := st; content := VObj props |} VUndefined HR
             (doFetch_json cfg rt _ _ _ _ _ _ _ _ Htok Hfetch Hjson) Herr
             (or_introl eq_refl)).
  simpl res_content. rewrite Herr. unfold status_is. simpl.
  apply Z.eqb_neq in Hst. rewrite Hst. unfold log_failure.
  simpl res_content. rewrite Herr, app_nil_r. reflexivity.
Qed.

End SilentFailures.

(** ** Sample runs of the further properties *)

Lemma doFetch_reply_returns_witness :
  exists c,
    doFetch sample_cfg sample_rt (js "GET") (js "contacts") VUndefined None
            (answers 503 (js "Service Unavailable"))
    = (Ret {| status := 503; content := c |}, []).
Proof.
  apply (doFetch_reply_returns sample_cfg sample_rt _ _ _ _ _ (js "token")
           (js "Service Unavailable") 503).
  - reflexivity.
  - intros req. reflexivity.
Defined.

Lemma verbs_throw_on_transport_failure_witness :
  doGet sample_cfg sample_rt (js "contacts")
        {| console := []; network := [no_token] |}
  = Some (Throw (generic_failure (js "GET")),
          {| console := [] ++ [LogError Rejection]; network := [] |}).
Proof.
  apply (verbs_throw_on_transport_failure sample_cfg sample_rt (js "contacts")
           VNull None no_token [] []).
  - simpl. lia.
  - left. reflexivity.
Defined.

Lemma doGet_plain_text_reply_witness :
  doGet sample_cfg sample_rt (js "contacts")
        {| console := []; network := [answers 200 (js "Bad Gateway")] |}
  = Some (Ret (VBool false),
          {| console :=
               [] ++ [LogLine [LText (js "GET request failed with status: ");
                               LStatus (Some 200); LText (js ", error: ");
                               LValue (VStr (js "Bad Gateway"))]];
             network := [] |}).
Proof.
  apply (doGet_plain_text_reply sample_cfg sample_rt _ _ _ _ (js "token")).
  - simpl. lia.
  - reflexivity.
  - intros req. reflexivity.
  - vm_compute. reflexivity.
  - vm_compute. discriminate.
Defined.

Lemma request_body_ignored_witness :
  doFetch sample_cfg sample_rt (js "GET") (js "contacts")
          (VObj [(js "firstname", VStr (js "Alice"))]) None
          (answers 200 contacts_text)
  = doFetch sample_cfg sample_rt (js "GET") (js "contacts") VUndefined None
            (answers 200 contacts_text).
Proof.
  apply request_body_ignored. left. reflexivity.
Defined.

Lemma doBatchPost_request_witness :
  doBatchPost sample_cfg sample_rt (js "contacts") (js "<fetch/>")
              {| console := [];
                 network := [answers 200 (batch_response contacts_text)] |}
  = doBatchPost sample_cfg sample_rt (js "contacts") (js "<fetch/>")
                {| console := [];
                   network := [post_only 200 (batch_response contacts_text)] |}.
Proof.
  apply (doBatchPost_request sample_cfg sample_rt _ _ _ _ _ _ (js "token")).
  - simpl. lia.
  - reflexivity.
  - reflexivity.
  - reflexivity.
Defined.

Lemma parsePrefixedEntity_keys_witness :
  exists out,
    parsePrefixedEntity (VObj sample_entity) = Ret (VObj out) /\
    NoDup (map fst out) /\
    (forall n, In n (map fst out) <->
               n <> js "__proto__" /\
               exists k, In k (map fst sample_entity) /\
                         getNormalizedPropertyName k = n) /\
    (List.length out <= List.length sample_entity)%nat.
Proof.
  apply (parsePrefixedEntity_keys (VObj sample_entity)). reflexivity.
Defined.

Lemma parsePrefixedEntity_last_wins_witness :
  exists out,
    parsePrefixedEntity shadowed_entity = Ret (VObj out) /\
    lookup (js "a_formatted") out = Some (VStr (js "raw")).
Proof.
  apply (parsePrefixedEntity_last_wins shadowed_entity
           [js "a@OData.Community.Display.V1.FormattedValue"]
           [js "b"] (js "a_formatted")).
  - reflexivity.
  - reflexivity.
  - vm_compute. discriminate.
  - intros k' [<- | []]. vm_compute. discriminate.
Defined.

Lemma processGetResponse_collection_elements_witness :
  processGetResponse
    (VObj [(js "@odata.context", VStr (js "https://crm.example/$metadata#contacts"));
           (js "value", VArr [VObj sample_entity; VNull])])
  = Throw TypeError.
Proof.
  apply (proj1 (processGetResponse_collection_elements
                  [(js "@odata.context",
                    VStr (js "https://crm.example/$metadata#contacts"));
                   (js "value", VArr [VObj sample_entity; VNull])]
                  (js "https://crm.example/$metadata#contacts")
                  [VObj sample_entity; VNull] eq_refl eq_refl eq_refl)).
Defined.

Lemma processGetResponse_value_not_array_witness :
  processGetResponse (VObj single_property) = Throw TypeError.
Proof.
  apply (processGetResponse_value_not_array single_property
           (js "https://crm.example/api/data/v9.1/$metadata#accounts(1)/name")
           (VStr (js "Adventure Works"))).
  - reflexivity.
  - reflexivity.
  - reflexivity.
  - intros elems. discriminate.
Defined.

Lemma getNormalizedPropertyName_idempotent_witness :
  getNormalizedPropertyName
    (getNormalizedPropertyName
       (js "statuscode@OData.Community.Display.V1.FormattedValue"))
  = getNormalizedPropertyName
      (js "statuscode@OData.Community.Display.V1.FormattedValue").
Proof.
  apply (getNormalizedPropertyName_idempotent _ Formatted).
  intros [ | | ] Hne; [exfalso; apply Hne; reflexivity | reflexivity
                       | reflexivity].
Defined.

(** With two kinds of annotation the second normalisation goes on. *)
Example mixed_annotations_renamed_twice :
  getNormalizedPropertyName (js "a@OData.Community.Display.V1.FormattedValue_logical")
  = js "a_formatted".
Proof. vm_compute. reflexivity. Qed.

Lemma extractBatchData_shape_witness :
  exists before mid after : jsstring,
    batch_response contacts_text = before ++ contacts_text ++ after /\
    contacts_text = 123%N :: mid ++ [125%N] /\
    forallb (fun c => negb (is_line_terminator c)) mid = true.
Proof.
  apply extractBatchData_shape. vm_compute. reflexivity.
Defined.

Lemma doBatchPost_returns_inner_json_witness :
  doBatchPost sample_cfg sample_rt (js "contacts") (js "<fetch/>")
              {| console := [];
                 network := [answers 200 (batch_response (jq "{'value':[]}"))] |}
  = Some (Ret (VObj [(js "value", VArr [])]),
          {| console := []; network := [] |}).
Proof.
  apply (doBatchPost_returns_inner_json sample_cfg sample_rt _ _ _ _ _
           (js "token") (batch_response (jq "{'value':[]}"))
           (jq "{'value':[]}") _ VUndefined).
  - simpl. lia.
  - reflexivity.
  - intros req. reflexivity.
  - vm_compute. reflexivity.
  - vm_compute. reflexivity.
  - reflexivity.
  - reflexivity.
Defined.


Lemma getContactId_after_failure_witness :
  getContactId sample_cfg sample_rt sample_contactIdXML (fun _ => PrimFloat.nan)
               (js "alice@example.org")
               {| console := [];
                  network := [answers 404 (jq "{'error':{'message':'Not found'}}")] |}
  = Some (Failed (Thrown TypeError),
          {| console :=
               [LogLine [LText (js "GET request failed with status: ");
                         LStatus (Some 404); LText (js ", error: ");
                         LValue (VStr (js "Not found"))]];
             network := [] |}).
Proof.
  apply getContactId_after_failure. vm_compute. reflexivity.
Defined.

Lemma doPost_other_status_throws_witness :
  doPost sample_cfg sample_rt (js "contacts")
         (VObj [(js "firstname", VStr (js "Alice"))]) None
         {| console := [];
            network := [answers 201 (jq "{'contactid':'c2'}")] |}
  = Some (Throw TypeError, {| console := []; network := [] |}).
Proof.
  apply (doPost_other_status_throws sample_cfg sample_rt _ _ _ _ _
           (js "token") (jq "{'contactid':'c2'}") 201
           [(js "contactid", VStr (js "c2"))]).
  - simpl. lia.
  - reflexivity.
  - intros req. reflexivity.
  - vm_compute. reflexivity.
  - reflexivity.
  - lia.
Defined.

Lemma retry_makes_one_request_witness :
  exists o,
    doFetchWithRetry sample_cfg sample_rt (js "GET") (js "contacts") VUndefined
                     None
                     {| console := [];
                        network := [answers 500 fault_text;
                                    answers 200 contacts_text] |}
    = Some (o, {| console :=
                    [] ++ snd (doFetch sample_cfg sample_rt (js "GET")
                                 (js "contacts") VUndefined None
                                 (answers 500 fault_text));
                  network := [answers 200 contacts_text] |}).
Proof.
  apply (retry_makes_one_request sample_cfg sample_rt). simpl. lia.
Defined.

Lemma doGet_ok_witness :
  doGet sample_cfg sample_rt (js "contacts")
        {| console := []; network := [answers 200 contacts_text] |}
  = Some (processGetResponse
            (VObj [(js "@odata.context",
                    VStr (js "https://crm.example/api/data/v9.1/$metadata#contacts"));
                   (js "value",
                    VArr [VObj [(js "contactid", VStr (js "c1"));
                                (js "statuscode@OData.Community.Display.V1.FormattedValue",
                                 VStr (js "Active"));
                                (js "statuscode", VNum 1)]])]),
          {| console := []; network := [] |}).
Proof.
  apply (doGet_ok sample_cfg sample_rt _ _ _ _ (js "token") contacts_text _
           VUndefined).
  - simpl. lia.
  - reflexivity.
  - intros req. reflexivity.
  - vm_compute. reflexivity.
  - reflexivity.
  - reflexivity.
Defined.

Lemma doGet_failure_logged_witness :
  doGet sample_cfg sample_rt (js "contacts(1)")
        {| console := [];
           network := [answers 404 (jq "{'error':{'message':'Not found'}}")] |}
  = Some (Ret (VBool false),
          {| console :=
               [] ++ [LogLine [LText (js "GET request failed with status: ");
                               LStatus (Some 404); LText (js ", error: ");
                               LValue (VStr (js "Not found"))]];
             network := [] |}).
Proof.
  apply (doGet_failure_logged sample_cfg sample_rt _ _ _ _ (js "token")
           (jq "{'error':{'message':'Not found'}}") 404
           (VObj [(js "error", VObj [(js "message", VStr (js "Not found"))])])
           (VObj [(js "message", VStr (js "Not found"))])).
  - simpl. lia.
  - reflexivity.
  - intros req. reflexivity.
  - vm_compute. reflexivity.
  - reflexivity.
  - reflexivity.
  - reflexivity.
  - reflexivity.
  - reflexivity.
Defined.

Lemma doPatch_ok_witness :
  doPatch sample_cfg sample_rt (js "contacts(1)")
          (VObj [(js "firstname", VStr (js "Alice"))])
          {| console := [];
             network := [answers 200 (jq "{'contactid':'c1'}")] |}
  = Some (Ret (VObj [(js "contactid", VStr (js "c1"))]),
          {| console := []; network := [] |}).
Proof.
  apply (doPatch_ok sample_cfg sample_rt _ _ _ _ _ (js "token")
           (jq "{'contactid':'c1'}") 200 _ VUndefined).
  - reflexivity.
  - intros req. reflexivity.
  - vm_compute. reflexivity.
  - reflexivity.
  - reflexivity.
  - lia.
Defined.
